(** * fastcache-proxy: cache-key derivation, cache store and load balancer

    A shallow embedding of the Cython sources of the caching proxy
    ([cache_manager.pyx], [load_balancer.pyx], [server.pyx]) together with
    the properties its design document states about them.

    Conventions of the embedding.
    - A Python [str] is a [string]: a sequence of code points below 256.
      [str.lower], [str.encode] (UTF-8) and the JSON escaping are written out
      for that range.
    - A Python [bytes] is a [list byte].
    - A Python [dict] is an association list in insertion order.
    - A Python [int] is a [Z]; a Cython [cdef int] is a [Z] kept inside the
      32-bit signed range, with the overflow behaviour of each operation
      written out where it happens.
    - Code that may raise returns [Exc A]. *)

From Stdlib Require Import ZArith String Ascii List Lia Bool Permutation.
From Stdlib.Strings Require Import Byte.
From stdpp Require Import base list.
Import ListNotations.

Local Open Scope Z_scope.

(** ** Exceptions *)

(** The exception classes the modelled code can meet.  [is_Exception] tells
    whether the class derives from [Exception] (what [except Exception]
    catches); [CancelledError] and [KeyboardInterrupt] derive from
    [BaseException] only. *)
Inductive exn : Type :=
  | OverflowError
  | ValueError
  | IndexError
  | AttributeError
  | ConnectionError
  | UnpicklingError
  | PicklingError
  | CancelledError
  | KeyboardInterrupt.

Definition is_Exception (e : exn) : bool :=
  match e with
  | CancelledError | KeyboardInterrupt => false
  | _ => true
  end.

Inductive Exc (A : Type) : Type :=
  | Ok (a : A)
  | Raise (e : exn).
Arguments Ok {A} a.
Arguments Raise {A} e.

#[global] Instance exc_ret : MRet Exc := fun A a => Ok a.
#[global] Instance exc_bind : MBind Exc := fun A B k m =>
  match m with
  | Ok a => k a
  | Raise e => Raise e
  end.

(** No exception derived from [Exception] comes out. *)
Definition contained {A} (r : Exc A) : Prop :=
  match r with
  | Ok _ => True
  | Raise e => is_Exception e = false
  end.

(** ** C integers *)

Definition INT_MIN : Z := - 2 ^ 31.
Definition INT_MAX : Z := 2 ^ 31 - 1.

Definition in_int (z : Z) : bool := (INT_MIN <=? z) && (z <=? INT_MAX).

(** Two's-complement wrap-around of C [int] arithmetic. *)
Definition wrap_int (z : Z) : Z := (z + 2 ^ 31) mod 2 ^ 32 - 2 ^ 31.

(** Conversion of a Python integer to a C [int] ([__Pyx_PyInt_As_int]). *)
Definition as_int (z : Z) : Exc Z :=
  if in_int z then Ok z else Raise OverflowError.

(** ** Python strings *)

Module PyStr.

Definition ord (c : ascii) : Z := Z.of_N (N_of_ascii c).
Definition chr (z : Z) : ascii := ascii_of_N (Z.to_N z).

(** [str.lower] on one code point below 256: A-Z and the Latin-1 capitals
    (U+00C0..U+00DE but the multiplication sign U+00D7) move up by 32. *)
Definition lower_char (c : ascii) : ascii :=
  let n := ord c in
  if ((65 <=? n) && (n <=? 90)) || ((192 <=? n) && (n <=? 222) && negb (n =? 215))
  then chr (n + 32) else c.

Fixpoint lower (s : string) : string :=
  match s with
  | EmptyString => EmptyString
  | String c s' => String (lower_char c) (lower s')
  end.

Definition byte_of_Z (z : Z) : byte :=
  match Byte.of_N (Z.to_N z) with
  | Some b => b
  | None => x00
  end.

(** UTF-8 of one code point below 256. *)
Definition utf8_char (c : ascii) : list byte :=
  let n := ord c in
  if n <? 128 then [byte_of_Z n]
  else [byte_of_Z (192 + n / 64); byte_of_Z (128 + n mod 64)].

(** [s.encode()] *)
Fixpoint encode (s : string) : list byte :=
  match s with
  | EmptyString => []
  | String c s' => utf8_char c ++ encode s'
  end.

(** Reads back one code point from the front of UTF-8 bytes. *)
Definition decode_char (bs : list byte) : option (ascii * list byte) :=
  match bs with
  | [] => None
  | b :: rest =>
      let n := Z.of_N (Byte.to_N b) in
      if n <? 128 then Some (chr n, rest)
      else
        match rest with
        | [] => None
        | b2 :: rest' =>
            Some (chr ((n - 192) * 64 + (Z.of_N (Byte.to_N b2) - 128)), rest')
        end
  end.

Definition hex_digit (z : Z) : ascii :=
  if z <? 10 then chr (48 + z) else chr (87 + z).

Definition hex_byte (z : Z) : string :=
  String (hex_digit (z / 16)) (String (hex_digit (z mod 16)) EmptyString).

Fixpoint hex (bs : list Z) : string :=
  match bs with
  | [] => EmptyString
  | b :: bs' => String.append (hex_byte b) (hex bs')
  end.

End PyStr.

(** ** hashlib *)

(** [hashlib.sha256] and [hashlib.md5] belong to the Python standard library;
    they are written out here from FIPS 180-4 and RFC 1321 so that keys can
    be computed. *)
Module Hashlib.

Definition byte_val (b : byte) : Z := Z.of_N (Byte.to_N b).

Definition w32 (z : Z) : Z := z mod 2 ^ 32.
Definition add32 (a b : Z) : Z := w32 (a + b).
Definition rotr (x n : Z) : Z := w32 (Z.lor (Z.shiftr x n) (Z.shiftl x (32 - n))).
Definition rotl (x n : Z) : Z := rotr x (32 - n).
Definition not32 (x : Z) : Z := 2 ^ 32 - 1 - x.

(** Big-endian and little-endian bytes of a [k]-byte quantity. *)
Fixpoint be_bytes (k : nat) (z : Z) : list Z :=
  match k with
  | O => []
  | S k' => be_bytes k' (z / 256) ++ [z mod 256]
  end.

Fixpoint le_bytes (k : nat) (z : Z) : list Z :=
  match k with
  | O => []
  | S k' => (z mod 256) :: le_bytes k' (z / 256)
  end.

Definition be_word (bs : list Z) : Z := fold_left (fun acc b => acc * 256 + b) bs 0.
Definition le_word (bs : list Z) : Z := fold_right (fun b acc => b + 256 * acc) 0 bs.

(** Message padding: a 1 bit, zeros up to 56 mod 64, then the bit length. *)
Definition pad (len_bytes : nat -> Z -> list Z) (msg : list Z) : list Z :=
  let n := Z.of_nat (length msg) in
  let zeros := Z.to_nat ((55 - n) mod 64) in
  msg ++ [128] ++ repeat 0 zeros ++ len_bytes 8%nat (8 * n).

(** Splits into chunks of [k] elements ([fuel] bounds the number of chunks). *)
Fixpoint chunks {A} (fuel k : nat) (l : list A) : list (list A) :=
  match fuel with
  | O => []
  | S fuel' =>
      match l with
      | [] => []
      | _ => firstn k l :: chunks fuel' k (skipn k l)
      end
  end.

Definition words_of (word : list Z -> Z) (block : list Z) : list Z :=
  map word (chunks 16 4 block).

Definition blocks (msg : list Z) : list (list Z) :=
  chunks (S (length msg)) 64 msg.

(** Trial division, and the primes up to [n]. *)
Definition is_prime (n : Z) : bool :=
  forallb (fun d => negb (n mod d =? 0))
          (List.filter (fun d => d * d <=? n) (map Z.of_nat (seq 2 (Z.to_nat n - 2)))).

Definition primes_upto (n : nat) : list Z :=
  List.filter is_prime (map Z.of_nat (seq 2 (n - 1))).

(** Integer cube root, one bit at a time from bit [bits - 1] down. *)
Fixpoint cube_root (bits : nat) (n r : Z) : Z :=
  match bits with
  | O => r
  | S b =>
      let c := r + 2 ^ Z.of_nat b in
      cube_root b n (if c * c * c <=? n then c else r)
  end.

Module SHA256.

(** FIPS 180-4, 4.2.2 and 5.3.3: the first 32 bits of the fractional parts
    of the cube roots of the first 64 primes, and of the square roots of the
    first 8. *)
Definition K : list Z :=
  Eval vm_compute in
    map (fun q => w32 (cube_root 36 (q * 2 ^ 96) 0)) (primes_upto 311).

Definition H0 : list Z :=
  Eval vm_compute in
    map (fun q => w32 (Z.sqrt (q * 2 ^ 64))) (primes_upto 19).

Definition ssig0 (x : Z) : Z := Z.lxor (Z.lxor (rotr x 7) (rotr x 18)) (Z.shiftr x 3).
Definition ssig1 (x : Z) : Z := Z.lxor (Z.lxor (rotr x 17) (rotr x 19)) (Z.shiftr x 10).
Definition bsig0 (x : Z) : Z := Z.lxor (Z.lxor (rotr x 2) (rotr x 13)) (rotr x 22).
Definition bsig1 (x : Z) : Z := Z.lxor (Z.lxor (rotr x 6) (rotr x 11)) (rotr x 25).
Definition ch (x y z : Z) : Z := Z.lxor (Z.land x y) (Z.land (not32 x) z).
Definition maj (x y z : Z) : Z := Z.lxor (Z.lxor (Z.land x y) (Z.land x z)) (Z.land y z).

(** Message schedule, newest word first: [rev_w] holds W[t-1], W[t-2], ... *)
Fixpoint schedule (n : nat) (rev_w : list Z) : list Z :=
  match n with
  | O => rev_w
  | S n' =>
      let w := add32 (add32 (ssig1 (nth 1 rev_w 0)) (nth 6 rev_w 0))
                     (add32 (ssig0 (nth 14 rev_w 0)) (nth 15 rev_w 0)) in
      schedule n' (w :: rev_w)
  end.

Definition round (st : list Z) (kw : Z * Z) : list Z :=
  match st with
  | [a; b; c; d; e; f; g; h] =>
      let t1 := add32 (add32 (add32 h (bsig1 e)) (add32 (ch e f g) (fst kw))) (snd kw) in
      let t2 := add32 (bsig0 a) (maj a b c) in
      [add32 t1 t2; a; b; c; add32 d t1; e; f; g]
  | _ => st
  end.

Definition zip {A B} (l : list A) (k : list B) : list (A * B) := combine l k.

Definition compress (h : list Z) (block : list Z) : list Z :=
  let w := rev (schedule 48 (rev (words_of be_word block))) in
  let st := fold_left round (zip K w) h in
  map (fun p => add32 (fst p) (snd p)) (zip h st).

Definition digest (msg : list byte) : list Z :=
  let padded := pad be_bytes (map byte_val msg) in
  flat_map (be_bytes 4) (fold_left compress (blocks padded) H0).

Definition hexdigest (msg : list byte) : string := PyStr.hex (digest msg).

End SHA256.

Module MD5.

Definition K : list Z :=
  [ 0xd76aa478; 0xe8c7b756; 0x242070db; 0xc1bdceee;
    0xf57c0faf; 0x4787c62a; 0xa8304613; 0xfd469501;
    0x698098d8; 0x8b44f7af; 0xffff5bb1; 0x895cd7be;
    0x6b901122; 0xfd987193; 0xa679438e; 0x49b40821;
    0xf61e2562; 0xc040b340; 0x265e5a51; 0xe9b6c7aa;
    0xd62f105d; 0x02441453; 0xd8a1e681; 0xe7d3fbc8;
    0x21e1cde6; 0xc33707d6; 0xf4d50d87; 0x455a14ed;
    0xa9e3e905; 0xfcefa3f8; 0x676f02d9; 0x8d2a4c8a;
    0xfffa3942; 0x8771f681; 0x6d9d6122; 0xfde5380c;
    0xa4beea44; 0x4bdecfa9; 0xf6bb4b60; 0xbebfbc70;
    0x289b7ec6; 0xeaa127fa; 0xd4ef3085; 0x04881d05;
    0xd9d4d039; 0xe6db99e5; 0x1fa27cf8; 0xc4ac5665;
    0xf4292244; 0x432aff97; 0xab9423a7; 0xfc93a039;
    0x655b59c3; 0x8f0ccc92; 0xffeff47d; 0x85845dd1;
    0x6fa87e4f; 0xfe2ce6e0; 0xa3014314; 0x4e0811a1;
    0xf7537e82; 0xbd3af235; 0x2ad7d2bb; 0xeb86d391 ].

Definition S : list Z :=
  [ 7; 12; 17; 22; 7; 12; 17; 22; 7; 12; 17; 22; 7; 12; 17; 22;
    5; 9; 14; 20; 5; 9; 14; 20; 5; 9; 14; 20; 5; 9; 14; 20;
    4; 11; 16; 23; 4; 11; 16; 23; 4; 11; 16; 23; 4; 11; 16; 23;
    6; 10; 15; 21; 6; 10; 15; 21; 6; 10; 15; 21; 6; 10; 15; 21 ].

Definition A0 : list Z := [ 0x67452301; 0xefcdab89; 0x98badcfe; 0x10325476 ].

Definition round (m : list Z) (st : list Z) (i : nat) : list Z :=
  match st with
  | [a; b; c; d] =>
      let iz := Z.of_nat i in
      let '(f, g) :=
        if iz <? 16 then (Z.lor (Z.land b c) (Z.land (not32 b) d), iz)
        else if iz <? 32 then (Z.lor (Z.land d b) (Z.land (not32 d) c), (5 * iz + 1) mod 16)
        else if iz <? 48 then (Z.lxor (Z.lxor b c) d, (3 * iz + 5) mod 16)
        else (Z.lxor c (Z.lor b (not32 d)), (7 * iz) mod 16) in
      let f' := add32 (add32 f a) (add32 (nth i K 0) (nth (Z.to_nat g) m 0)) in
      [d; add32 b (rotl f' (nth i S 0)); b; c]
  | _ => st
  end.

Definition compress (h : list Z) (block : list Z) : list Z :=
  let st := fold_left (round (words_of le_word block)) (seq 0 64) h in
  map (fun p => add32 (fst p) (snd p)) (combine h st).

Definition digest (msg : list byte) : list Z :=
  let padded := pad le_bytes (map byte_val msg) in
  flat_map (le_bytes 4) (fold_left compress (blocks padded) A0).

Definition hexdigest (msg : list byte) : string := PyStr.hex (digest msg).

End MD5.

End Hashlib.

(** ** json.dumps on a mapping from strings to strings *)

Module Json.

Definition dq : ascii := "034"%char.
Definition backslash : ascii := "092"%char.

Definition str1 (c : ascii) : string := String c EmptyString.
Definition esc (c : ascii) : string := String backslash (str1 c).

(** One character of a JSON string under [ensure_ascii=True]: the quote, the
    backslash and everything outside the printable ASCII range are escaped. *)
Definition encode_char (c : ascii) : string :=
  let n := PyStr.ord c in
  if n =? 34 then esc dq
  else if n =? 92 then esc backslash
  else if n =? 10 then esc "n"
  else if n =? 13 then esc "r"
  else if n =? 9 then esc "t"
  else if n =? 8 then esc "b"
  else if n =? 12 then esc "f"
  else if (32 <=? n) && (n <=? 126) then str1 c
  else String backslash (String "u" (String "0" (String "0" (PyStr.hex_byte n)))).

Fixpoint encode_chars (s : string) : string :=
  match s with
  | EmptyString => EmptyString
  | String c s' => String.append (encode_char c) (encode_chars s')
  end.

Definition unhex (c : ascii) : Z :=
  let n := PyStr.ord c in if n <? 58 then n - 48 else n - 87.

(** Reads back one character from the front of an escaped string; a bare
    quote ends the string. *)
Definition decode_char (s : string) : option (ascii * string) :=
  match s with
  | EmptyString => None
  | String c rest =>
      if Ascii.eqb c dq then None
      else if Ascii.eqb c backslash then
        match rest with
        | EmptyString => None
        | String x rest1 =>
            if Ascii.eqb x "u" then
              match rest1 with
              | String _ (String _ (String h1 (String h2 rest2))) =>
                  Some (PyStr.chr (16 * unhex h1 + unhex h2), rest2)
              | _ => None
              end
            else if Ascii.eqb x "n" then Some (PyStr.chr 10, rest1)
            else if Ascii.eqb x "r" then Some (PyStr.chr 13, rest1)
            else if Ascii.eqb x "t" then Some (PyStr.chr 9, rest1)
            else if Ascii.eqb x "b" then Some (PyStr.chr 8, rest1)
            else if Ascii.eqb x "f" then Some (PyStr.chr 12, rest1)
            else Some (x, rest1)
        end
      else Some (c, rest)
  end.

Definition encode_str (s : string) : string :=
  String dq (String.append (encode_chars s) (str1 dq)).

Definition encode_item (kv : string * string) : string :=
  String.append (encode_str (fst kv)) (String.append ": " (encode_str (snd kv))).

(** [sorted(d.items())]: items in increasing key order. *)
Fixpoint insert_sorted (kv : string * string) (l : list (string * string))
  : list (string * string) :=
  match l with
  | [] => [kv]
  | kv' :: l' =>
      if String.leb (fst kv) (fst kv') then kv :: l
      else kv' :: insert_sorted kv l'
  end.

Fixpoint sorted (l : list (string * string)) : list (string * string) :=
  match l with
  | [] => []
  | kv :: l' => insert_sorted kv (sorted l')
  end.

(** The items of an object, joined by the default separator. *)
Definition encode_items (items : list (string * string)) : string :=
  String.concat ", " (map encode_item items).

(** [json.dumps(d, sort_keys=True)] *)
Definition dumps_sorted (d : list (string * string)) : string :=
  String "{" (String.append (encode_items (sorted d)) "}").

End Json.

(** ** cache_manager.pyx *)

(** [_generate_cache_key], the same in both revisions of the file. *)
Module CacheKey.

(** A [dict] with string keys and values, in insertion order. *)
Definition pydict : Type := list (string * string).

Fixpoint dict_get (d : pydict) (k : string) : option string :=
  match d with
  | [] => None
  | (k', v') :: d' => if String.eqb k' k then Some v' else dict_get d' k
  end.

(** [d[k] = v]: an existing key keeps its place, a new key goes last. *)
Fixpoint dict_set (d : pydict) (k v : string) : pydict :=
  match d with
  | [] => [(k, v)]
  | (k', v') :: d' =>
      if String.eqb k' k then (k', v) :: d' else (k', v') :: dict_set d' k v
  end.

Definition allow_list : list string :=
  ["accept"; "accept-encoding"; "accept-language"]%string.

(** [x in allow_list] *)
Definition allowed (x : string) : bool := existsb (String.eqb x) allow_list.

(** One item of the comprehension below. *)
Definition keep_header (d : pydict) (kv : string * string) : pydict :=
  if allowed (PyStr.lower (fst kv))
  then dict_set d (PyStr.lower (fst kv)) (snd kv) else d.

(** [{k.lower(): v for k, v in header.items() if k.lower() in [...]}] *)
Definition cache_headers (header : pydict) : pydict :=
  fold_left keep_header header [].

Definition colon (s : string) : string := String ":" s.

(** The string the final digest is taken of. *)
Definition key_parts (method url : string) (header : option pydict)
    (body : option (list byte)) : string :=
  let kp0 := String.append method (colon url) in
  let kp1 :=
    match header with
    | Some ((_ :: _) as h) =>                       (* if header: *)
        match cache_headers h with
        | [] => kp0
        | ch => String.append kp0 (colon (Json.dumps_sorted ch))
        end
    | _ => kp0
    end in
  match body with
  | Some ((_ :: _) as b) =>                         (* if body: *)
      String.append kp1 (colon (Hashlib.MD5.hexdigest b))
  | _ => kp1
  end.

Definition _generate_cache_key (method url : string) (header : option pydict)
    (body : option (list byte)) : string :=
  String.append "cache:"
    (Hashlib.SHA256.hexdigest (PyStr.encode (key_parts method url header body))).

Definition generate_cache_key := _generate_cache_key.

End CacheKey.

(** The sources hold two revisions of the store operations. One keeps a
    synchronous cluster client in [redis_cluster] beside [redis_client] and
    branches on it in every operation; in the other the attribute is gone and
    every operation goes to [redis_client], which is the case
    [redis_cluster = None] below. *)
Module CacheManager.

(** What the Redis client hands back as a scan cursor: redis-py returns an
    [int], the loop starts from the bytes [b'0']. *)
Inductive cursor : Type :=
  | CInt (n : Z)
  | CBytes (b : list byte).

(** A key given to the backend: the [str] cache key, or the [bytes] a scan
    returned. *)
Inductive rkey : Type :=
  | KStr (s : string)
  | KBytes (b : list byte).

Definition cursor_truthy (c : cursor) : bool :=
  match c with
  | CInt n => negb (n =? 0)
  | CBytes b => match b with [] => false | _ => true end
  end.

(** [cursor == b'0'] *)
Definition cursor_is_b0 (c : cursor) : bool :=
  match c with
  | CBytes [b] => Byte.eqb b "0"%byte
  | _ => false
  end.

(** What [get_stats] returns: the dict with the count and the cluster flag,
    or the dict with a zero count and the error. *)
Inductive stats : Type :=
  | Stats (total_keys : Z) (cluster_mode : bool)
  | StatsError (total_keys : Z) (error : exn).

Section WithBackend.

(** The backing store is an external collaborator: [St] is its state, every
    call may raise.  [Value] is the cached response, [pickle_loads] and
    [pickle_dumps] its (de)serialisation. *)
Context {St Value : Type}.
Variable pickle_loads : list byte -> Exc Value.
Variable pickle_dumps : Value -> Exc (list byte).

Definition call (A : Type) : Type := St -> Exc A * St.

Record RedisClient : Type := {
  redis_get : string -> call (option (list byte));
  redis_setex : string -> Z -> list byte -> call unit;
  redis_delete : list rkey -> call Z;
  redis_scan : cursor -> Z -> call (cursor * list rkey)
}.

Record ClusterNode : Type := {
  node_keys : call (list rkey);
  node_delete : list rkey -> call Z
}.

Record RedisCluster : Type := {
  cluster_get : string -> call (option (list byte));
  cluster_setex : string -> Z -> list byte -> call unit;
  cluster_delete : list rkey -> call Z;
  cluster_get_nodes : call (list ClusterNode)
}.

Record CacheManager : Type := {
  redis_client : option RedisClient;
  redis_cluster : option RedisCluster;
  default_ttl : Z
}.

(** The world a coroutine runs in: the backend and what was printed. *)
Record World : Type := {
  backend : St;
  stdout : list (string * exn)
}.

(** The world after [print(f"{msg}: {e}")]. *)
Definition logged (msg : string) (e : exn) (w : World) : World :=
  {| backend := backend w; stdout := stdout w ++ [(msg, e)] |}.

(** The world after a backend call that left the backend in [st]. *)
Definition after_call (st : St) (w : World) : World :=
  {| backend := st; stdout := stdout w |}.

(** A computation that may raise, may not finish within its fuel ([None]),
    and changes the world as it goes. *)
Definition IO (A : Type) : Type := World -> option (Exc A * World).

Definition io_ret {A} (a : A) : IO A := fun w => Some (Ok a, w).
Definition io_raise {A} (e : exn) : IO A := fun w => Some (Raise e, w).

Definition io_bind {A B} (m : IO A) (k : A -> IO B) : IO B := fun w =>
  match m w with
  | None => None
  | Some (Ok a, w') => k a w'
  | Some (Raise e, w') => Some (Raise e, w')
  end.

Definition io_try {A} (body : IO A) (handler : exn -> IO A) : IO A := fun w =>
  match body w with
  | None => None
  | Some (Ok a, w') => Some (Ok a, w')
  | Some (Raise e, w') => if is_Exception e then handler e w' else Some (Raise e, w')
  end.

Definition io_call {A} (c : call A) : IO A := fun w =>
  let '(r, st') := c (backend w) in
  Some (r, after_call st' w).

Definition io_exc {A} (r : Exc A) : IO A := fun w => Some (r, w).

Definition print (msg : string) (e : exn) : IO unit := fun w =>
  Some (Ok tt, logged msg e w).


Notation "'let!' x ':=' m 'in' k" := (io_bind m (fun x => k))
  (at level 10, x pattern, m at level 100, k at level 200).

(** [except Exception as e: print(...); return dflt] *)
Definition on_error {A} (msg : string) (dflt : A) (e : exn) : IO A :=
  let! _ := print msg e in io_ret dflt.

(** [self.redis_client.<method>]: an [AttributeError] on [None]. *)
Definition with_client {A} (cm : CacheManager) (f : RedisClient -> IO A) : IO A :=
  match redis_client cm with
  | Some c => f c
  | None => io_raise AttributeError
  end.

Definition get_body (cm : CacheManager) (cache_key : string) : IO (option Value) :=
  let! data :=
    match redis_cluster cm with
    | Some cl => io_call (cluster_get cl cache_key)
    | None => with_client cm (fun c => io_call (redis_get c cache_key))
    end in
  match data with
  | Some ((_ :: _) as d) =>                          (* if data: *)
      let! v := io_exc (pickle_loads d) in io_ret (Some v)
  | _ => io_ret None
  end.

Definition get (cm : CacheManager) (cache_key : string) : IO (option Value) :=
  io_try (get_body cm cache_key)
         (on_error "Cache get error" None).

Definition set_body (cm : CacheManager) (cache_key : string) (response_data : Value)
    (ttl : Z) : IO bool :=
  let ttl := if ttl =? -1 then default_ttl cm else ttl in
  let! serialized := io_exc (pickle_dumps response_data) in
  let! _ :=
    match redis_cluster cm with
    | Some cl => io_call (cluster_setex cl cache_key ttl serialized)
    | None => with_client cm (fun c => io_call (redis_setex c cache_key ttl serialized))
    end in
  io_ret true.

(** The parameter is declared [int ttl]: the argument is converted to a C
    [int] when the call is made, before the try block is entered, so an
    [OverflowError] of the conversion goes to the caller. *)
Definition set (cm : CacheManager) (cache_key : string) (response_data : Value)
    (ttl : Z) : IO bool :=
  let! ttl := io_exc (as_int ttl) in
  io_try (set_body cm cache_key response_data ttl)
         (on_error "Cache set error" false).

Definition delete_body (cm : CacheManager) (cache_key : string) : IO bool :=
  let! n :=
    match redis_cluster cm with
    | Some cl => io_call (cluster_delete cl [KStr cache_key])
    | None => with_client cm (fun c => io_call (redis_delete c [KStr cache_key]))
    end in
  io_ret (negb (n =? 0)).                            (* bool(n) *)

Definition delete (cm : CacheManager) (cache_key : string) : IO bool :=
  io_try (delete_body cm cache_key)
         (on_error "Cache delete error" false).

(** [if keys: delete] of all the keys at once. *)
Definition delete_if_any (del : list rkey -> call Z) (keys : list rkey) : IO unit :=
  match keys with
  | [] => io_ret tt
  | _ => let! _ := io_call (del keys) in io_ret tt
  end.

(** The cluster branch: every node in turn. *)
Fixpoint clear_nodes (nodes : list ClusterNode) : IO unit :=
  match nodes with
  | [] => io_ret tt
  | node :: nodes' =>
      let! keys := io_call (node_keys node) in
      let! _ := delete_if_any (node_delete node) keys in
      clear_nodes nodes'
  end.

(** The [while cursor:] loop of the single-node branch; [fuel] bounds the
    number of pages scanned. *)
Fixpoint scan_loop (fuel : nat) (c : RedisClient) (cur : cursor) : IO unit :=
  if cursor_truthy cur then
    match fuel with
    | O => fun _ => None
    | S fuel' =>
        let! page := io_call (redis_scan c cur 100) in
        let! _ := delete_if_any (redis_delete c) (snd page) in
        if cursor_is_b0 (fst page) then io_ret tt
        else scan_loop fuel' c (fst page)
    end
  else io_ret tt.

Definition clear_all_body (fuel : nat) (cm : CacheManager) : IO bool :=
  let! _ :=
    match redis_cluster cm with
    | Some cl =>
        let! nodes := io_call (cluster_get_nodes cl) in clear_nodes nodes
    | None =>
        with_client cm (fun c => scan_loop fuel c (CBytes ["0"%byte]))
    end in
  io_ret true.

Definition clear_all (fuel : nat) (cm : CacheManager) : IO bool :=
  io_try (clear_all_body fuel cm)
         (on_error "Cache clear error" false).

(** The key count of [get_stats] over the nodes of a cluster. *)
Fixpoint count_nodes (nodes : list ClusterNode) (total_keys : Z) : IO Z :=
  match nodes with
  | [] => io_ret total_keys
  | node :: nodes' =>
      let! keys := io_call (node_keys node) in
      count_nodes nodes' (total_keys + Z.of_nat (length keys))
  end.

(** [get_stats] of the revision with [redis_cluster]: one scan of at most
    1000 keys on a single node, every node of a cluster. *)
Definition get_stats_body (cm : CacheManager) : IO stats :=
  match redis_cluster cm with
  | Some cl =>
      let! nodes := io_call (cluster_get_nodes cl) in
      let! total_keys := count_nodes nodes 0 in
      io_ret (Stats total_keys true)
  | None =>
      with_client cm (fun c =>
        let! page := io_call (redis_scan c (CBytes ["0"%byte]) 1000) in
        io_ret (Stats (Z.of_nat (length (snd page))) false))
  end.

Definition get_stats (cm : CacheManager) : IO stats :=
  io_try (get_stats_body cm)
         (fun e => let! _ := print "Stats error" e in io_ret (StatsError 0 e)).

(** A manager after [connect()] to a single node. *)
Definition single_node (c : RedisClient) (ttl : Z) : CacheManager :=
  {| redis_client := Some c; redis_cluster := None; default_ttl := ttl |}.

End WithBackend.

(** A single-node backend that answers the scans with the pages of a script,
    in order, and records the keys of every [delete] call. Its state: the
    pages not yet handed out and the deletions made. *)
Definition script : Type := list (cursor * list rkey) * list (list rkey).

Definition paged : @RedisClient script :=
  {| redis_get := fun _ st => (Ok None, st);
     redis_setex := fun _ _ _ st => (Ok tt, st);
     redis_delete := fun keys st =>
       (Ok (Z.of_nat (length keys)), (fst st, snd st ++ [keys]));
     redis_scan := fun _ _ st =>
       match fst st with
       | [] => (Ok (CInt 0, []), st)
       | page :: pages => (Ok page, (pages, snd st))
       end |}.

(** The scan loop goes on after a page with this cursor. *)
Definition continuing (c : cursor) : bool :=
  cursor_truthy c && negb (cursor_is_b0 c).

Definition nonempty {A} (l : list A) : bool :=
  match l with [] => false | _ => true end.

End CacheManager.

(** ** server.pyx *)

(** Modelled from the spec: the attribute declarations of the extension type
    [Server] (its [.pxd]) are not among the sources; the data model calls
    [weight], [effective_weight], [current_weight] and [active_connections]
    integers, [healthy] a boolean and [name] a string. *)
Record Server : Type := {
  name : string;
  weight : Z;
  current_weight : Z;
  effective_weight : Z;
  active_connections : Z;
  healthy : bool
}.

Module ServerOps.

Definition __init__ (name : string) (weight : Z) : Server :=
  {| name := name;
     weight := weight;
     current_weight := 0;
     effective_weight := weight;
     active_connections := 0;
     healthy := true |}.

Definition get_name (s : Server) : string := name s.
Definition get_weight (s : Server) : Z := weight s.

Definition set_active_connections (s : Server) (n : Z) : Server :=
  {| name := name s; weight := weight s; current_weight := current_weight s;
     effective_weight := effective_weight s; active_connections := n;
     healthy := healthy s |}.

Definition set_current_weight (s : Server) (w : Z) : Server :=
  {| name := name s; weight := weight s; current_weight := w;
     effective_weight := effective_weight s;
     active_connections := active_connections s; healthy := healthy s |}.

Definition increment_connections (s : Server) : Server :=
  set_active_connections s (active_connections s + 1).

Definition decrement_connections (s : Server) : Server :=
  if active_connections s >? 0
  then set_active_connections s (active_connections s - 1)
  else s.

Definition is_healthy (s : Server) : bool := healthy s.

Definition set_healthy (s : Server) (status : bool) : Server :=
  {| name := name s; weight := weight s; current_weight := current_weight s;
     effective_weight := effective_weight s;
     active_connections := active_connections s; healthy := status |}.

End ServerOps.

(** ** load_balancer.pyx *)

Module LoadBalancer.

Import ServerOps.

(** The balancer's list holds [Server] objects; an object is identified by
    its position in [servers], and a selection returns that position. *)
Record LoadBalancer : Type := {
  servers : list Server;
  current_index : Z;
  total_weight : Z;
  cumulative_weights : list Z;
  strategy : Z
}.

Definition set_servers (lb : LoadBalancer) (l : list Server) : LoadBalancer :=
  {| servers := l; current_index := current_index lb;
     total_weight := total_weight lb;
     cumulative_weights := cumulative_weights lb; strategy := strategy lb |}.

Definition set_current_index (lb : LoadBalancer) (i : Z) : LoadBalancer :=
  {| servers := servers lb; current_index := i;
     total_weight := total_weight lb;
     cumulative_weights := cumulative_weights lb; strategy := strategy lb |}.

(** [random.randint(a, b)]: [ValueError] on an empty range, otherwise some
    integer of [a..b], fixed here by the generator's next raw output [u]. *)
Definition randint (a b : Z) (u : Z) : Exc Z :=
  if b <? a then Raise ValueError else Ok (a + u mod (b - a + 1)).

(** [l[i]] on a Python list, negative indices counting from the end. *)
Definition getitem {A} (l : list A) (i : Z) : Exc A :=
  let n := Z.of_nat (length l) in
  let j := if i <? 0 then i + n else i in
  if (0 <=? j) && (j <? n) then
    match l !! Z.to_nat j with
    | Some x => Ok x
    | None => Raise IndexError
    end
  else Raise IndexError.

(** The loops of [_calculate_total_weight] and
    [_calculate_cumulative_weights]: [total] is a C [int], each sum is
    computed on Python integers and converted back. *)
Fixpoint total_weight_loop (l : list Server) (total : Z) : Exc Z :=
  match l with
  | [] => Ok total
  | s :: l' =>
      if healthy s then
        total' ← as_int (total + weight s); total_weight_loop l' total'
      else total_weight_loop l' total
  end.

Definition _calculate_total_weight (srvs : list Server) : Exc Z :=
  total_weight_loop srvs 0.

Fixpoint cumulative_weights_loop (l : list Server) (cumulative : Z) (acc : list Z)
  : Exc (list Z) :=
  match l with
  | [] => Ok acc
  | s :: l' =>
      if healthy s then
        c ← as_int (cumulative + weight s);
        cumulative_weights_loop l' c (acc ++ [c])
      else cumulative_weights_loop l' cumulative acc
  end.

Definition _calculate_cumulative_weights (srvs : list Server) : Exc (list Z) :=
  cumulative_weights_loop srvs 0 [].

Definition __init__ (srvs : list Server) (strat : Z) : Exc LoadBalancer :=
  tw ← _calculate_total_weight srvs;
  st ← as_int strat;
  cw ← _calculate_cumulative_weights srvs;
  mret {| servers := srvs; current_index := 0; total_weight := tw;
          cumulative_weights := cw; strategy := st |}.

(** Positions of the healthy servers, in stored order, from position [i] on. *)
Fixpoint healthy_from (i : nat) (l : list Server) : list nat :=
  match l with
  | [] => []
  | s :: l' => if healthy s then i :: healthy_from (S i) l' else healthy_from (S i) l'
  end.

Definition _get_healthy_server (lb : LoadBalancer) : list nat :=
  healthy_from 0 (servers lb).

Definition _round_robin (lb : LoadBalancer) : Exc (option nat) * LoadBalancer :=
  match _get_healthy_server lb with
  | [] => (Ok None, lb)
  | hs =>
      match getitem hs (current_index lb mod Z.of_nat (length hs)) with
      | Ok s => (Ok (Some s), set_current_index lb (wrap_int (current_index lb + 1)))
      | Raise e => (Raise e, lb)
      end
  end.

(** [s.current_weight] of the object at position [i]. *)
Definition weight_at (srvs : list Server) (i : nat) : Z :=
  match srvs !! i with
  | Some s => current_weight s
  | None => 0
  end.

(** The scan of [_weighted_round_robin] over the positions [idxs]: the
    objects are updated in place, so an [OverflowError] leaves the updates
    made so far. *)
Fixpoint wrr_loop (idxs : list nat) (srvs : list Server) (best : option nat) (total : Z)
  : Exc (option nat * Z) * list Server :=
  match idxs with
  | [] => (Ok (best, total), srvs)
  | i :: idxs' =>
      match srvs !! i with
      | None => wrr_loop idxs' srvs best total
      | Some s =>
          if negb (healthy s) then wrr_loop idxs' srvs best total
          else
            let s' := set_current_weight s (current_weight s + effective_weight s) in
            let srvs' := <[i := s']> srvs in
            match as_int (total + effective_weight s') with
            | Raise e => (Raise e, srvs')
            | Ok total' =>
                let best' :=
                  match best with
                  | None => Some i
                  | Some b =>
                      if current_weight s' >? weight_at srvs' b then Some i else Some b
                  end in
                wrr_loop idxs' srvs' best' total'
            end
      end
  end.

Definition _weighted_round_robin (lb : LoadBalancer) : Exc (option nat) * LoadBalancer :=
  match wrr_loop (seq 0 (length (servers lb))) (servers lb) None 0 with
  | (Raise e, srvs) => (Raise e, set_servers lb srvs)
  | (Ok (None, _), srvs) => (Ok None, set_servers lb srvs)
  | (Ok (Some b, total), srvs) =>
      let srvs' :=
        match srvs !! b with
        | Some s => <[b := set_current_weight s (current_weight s - total)]> srvs
        | None => srvs
        end in
      (Ok (Some b), set_servers lb srvs')
  end.

Definition _random (lb : LoadBalancer) (u : Z) : Exc (option nat) :=
  match _get_healthy_server lb with
  | [] => Ok None
  | hs =>
      r ← randint 0 (Z.of_nat (length hs) - 1) u;
      s ← getitem hs r;
      mret (Some s)
  end.

(** The scan of [_weighted_random] over [cumulative_weights], from position
    [i] on. *)
Fixpoint weighted_scan (hs : list nat) (random_value : Z) (i : nat) (cw : list Z)
  : Exc nat :=
  match cw with
  | [] => getitem hs (-1)
  | c :: cw' =>
      if random_value <? c then getitem hs (Z.of_nat i)
      else weighted_scan hs random_value (S i) cw'
  end.

Definition _weighted_random (lb : LoadBalancer) (u : Z) : Exc (option nat) :=
  match _get_healthy_server lb with
  | [] => Ok None
  | hs =>
      d ← randint 0 (wrap_int (total_weight lb - 1)) u;
      random_value ← as_int d;
      s ← weighted_scan hs random_value 0 (cumulative_weights lb);
      mret (Some s)
  end.

Definition connections_at (srvs : list Server) (i : nat) : Z :=
  match srvs !! i with
  | Some s => active_connections s
  | None => 0
  end.

Fixpoint least_loop (i : nat) (l : list Server) (all : list Server) (best : option nat)
  : option nat :=
  match l with
  | [] => best
  | s :: l' =>
      if negb (healthy s) then least_loop (S i) l' all best
      else
        let best' :=
          match best with
          | None => Some i
          | Some b =>
              if active_connections s <? connections_at all b then Some i else Some b
          end in
        least_loop (S i) l' all best'
  end.

Definition _least_connections (lb : LoadBalancer) : option nat :=
  least_loop 0 (servers lb) (servers lb) None.

Definition refresh_weight (lb : LoadBalancer) : Exc unit * LoadBalancer :=
  match _calculate_total_weight (servers lb) with
  | Raise e => (Raise e, lb)
  | Ok tw =>
      let lb1 :=
        {| servers := servers lb; current_index := current_index lb;
           total_weight := tw; cumulative_weights := cumulative_weights lb;
           strategy := strategy lb |} in
      match _calculate_cumulative_weights (servers lb) with
      | Raise e => (Raise e, lb1)
      | Ok cw =>
          (Ok tt,
           {| servers := servers lb; current_index := current_index lb;
              total_weight := tw; cumulative_weights := cw;
              strategy := strategy lb |})
      end
  end.

(** [get_next_server]; [u] is the raw output the random strategies draw
    from. *)
Definition get_next_server (lb : LoadBalancer) (u : Z)
  : Exc (option nat) * LoadBalancer :=
  if strategy lb =? 0 then _round_robin lb
  else if strategy lb =? 1 then _weighted_round_robin lb
  else if strategy lb =? 2 then (_random lb u, lb)
  else if strategy lb =? 3 then (_weighted_random lb u, lb)
  else if strategy lb =? 4 then (Ok (_least_connections lb), lb)
  else
    match servers lb with
    | [] => (Ok None, lb)
    | _ :: _ => (Ok (Some 0%nat), lb)
    end.

End LoadBalancer.

(** ** Histories and reference definitions used by the statements *)

Module Histories.

Import ServerOps LoadBalancer.

(** Calls of the two connection-count mutators of one server. *)
Inductive conn_op : Type := Increment | Decrement.

Definition apply_conn (s : Server) (o : conn_op) : Server :=
  match o with
  | Increment => increment_connections s
  | Decrement => decrement_connections s
  end.

Definition run_conn (ops : list conn_op) (s : Server) : Server :=
  fold_left apply_conn ops s.

(** The operations [Server] and [LoadBalancer] offer on a running balancer:
    the mutators of the server at position [i], a selection, a refresh of the
    derived state. *)
Inductive op : Type :=
  | OpIncrement (i : nat)
  | OpDecrement (i : nat)
  | OpSetHealthy (i : nat) (status : bool)
  | OpNextServer (u : Z)
  | OpRefresh.

Definition on_server (f : Server -> Server) (i : nat) (lb : LoadBalancer) : LoadBalancer :=
  set_servers lb (alter f i (servers lb)).

Definition step (lb : LoadBalancer) (o : op) : LoadBalancer :=
  match o with
  | OpIncrement i => on_server increment_connections i lb
  | OpDecrement i => on_server decrement_connections i lb
  | OpSetHealthy i status => on_server (fun s => set_healthy s status) i lb
  | OpNextServer u => snd (get_next_server lb u)
  | OpRefresh => snd (refresh_weight lb)
  end.

Definition run (ops : list op) (lb : LoadBalancer) : LoadBalancer :=
  fold_left step ops lb.

(** Servers as configured: one [Server(name, weight)] per entry. *)
Definition configure (cfg : list (string * Z)) : list Server :=
  map (fun nw => ServerOps.__init__ (fst nw) (snd nw)) cfg.

(** [n] consecutive calls of the round-robin strategy: the selections, oldest
    first, and the balancer afterwards. *)
Fixpoint round_robin_calls (n : nat) (lb : LoadBalancer)
  : list (Exc (option nat)) * LoadBalancer :=
  match n with
  | O => ([], lb)
  | S n' =>
      let '(r, lb1) := _round_robin lb in
      let '(rs, lb2) := round_robin_calls n' lb1 in
      (r :: rs, lb2)
  end.

(** Every field of a server but [current_weight]. *)
Definition frame (s : Server) : Server := set_current_weight s 0.

(** Name, static weight and effective weight of a server. *)
Definition static (s : Server) : string * Z * Z :=
  (name s, weight s, effective_weight s).

(** A healthy server after the first step of the weighted round-robin. *)
Definition bump (s : Server) : Server :=
  if healthy s then set_current_weight s (current_weight s + effective_weight s) else s.

(** Sum of [effective_weight] over the healthy servers. *)
Fixpoint effective_total (l : list Server) : Z :=
  match l with
  | [] => 0
  | s :: l' => (if healthy s then effective_weight s else 0) + effective_total l'
  end.

(** The running total of the weighted round-robin stays a C [int]. *)
Definition total_fits (l : list Server) : Prop :=
  forall k : nat, in_int (effective_total (take k l)) = true.

(** [best] is what the scan of the weighted round-robin holds after the first
    [k] servers of [l]: nothing if none of them is healthy, otherwise the
    first healthy one among them whose raised [current_weight] is maximal. *)
Definition first_best (l : list Server) (k : nat) (best : option nat) : Prop :=
  match best with
  | None => forall j s, (j < k)%nat -> l !! j = Some s -> healthy s = false
  | Some b =>
      (b < k)%nat /\
      (exists s, l !! b = Some s /\ healthy s = true) /\
      (forall j s, (j < k)%nat -> l !! j = Some s -> healthy s = true ->
         current_weight (bump s) <= weight_at (map bump l) b /\
         ((j < b)%nat -> current_weight (bump s) < weight_at (map bump l) b))
  end.

(** No server of the list is healthy. *)
Definition all_unhealthy (l : list Server) : Prop :=
  Forall (fun s => healthy s = false) l.

(** Position of the first entry strictly greater than [d]. *)
Fixpoint first_above (d : Z) (cw : list Z) : option nat :=
  match cw with
  | [] => None
  | c :: cw' => if d <? c then Some O else S <$> first_above d cw'
  end.

(** Number of calls of each mutator in a history. *)
Fixpoint increments (ops : list conn_op) : Z :=
  match ops with
  | [] => 0
  | Increment :: ops' => 1 + increments ops'
  | Decrement :: ops' => increments ops'
  end.

Fixpoint decrements (ops : list conn_op) : Z :=
  match ops with
  | [] => 0
  | Increment :: ops' => decrements ops'
  | Decrement :: ops' => 1 + decrements ops'
  end.

(** Every decrement of the history finds a request in flight, [n] being in
    flight at its start. *)
Fixpoint bracketed (n : Z) (ops : list conn_op) : Prop :=
  match ops with
  | [] => True
  | Increment :: ops' => bracketed (n + 1) ops'
  | Decrement :: ops' => 0 < n /\ bracketed (n - 1) ops'
  end.

(** Sum of [weight] over the healthy servers, and its running values, one
    per healthy server. *)
Fixpoint weight_total (l : list Server) : Z :=
  match l with
  | [] => 0
  | s :: l' => (if healthy s then weight s else 0) + weight_total l'
  end.

Fixpoint weight_sums (acc : Z) (l : list Server) : list Z :=
  match l with
  | [] => []
  | s :: l' =>
      if healthy s then (acc + weight s) :: weight_sums (acc + weight s) l'
      else weight_sums acc l'
  end.

(** The running sum of the healthy weights stays a C [int]. *)
Definition weights_fit (l : list Server) : Prop :=
  forall k : nat, in_int (weight_total (take k l)) = true.

(** The derived state agrees with the servers. *)
Definition fresh (lb : LoadBalancer) : Prop :=
  total_weight lb = weight_total (servers lb) /\
  cumulative_weights lb = weight_sums 0 (servers lb).

(** The balancer with its derived state recomputed. *)
Definition refreshed (lb : LoadBalancer) : LoadBalancer :=
  {| servers := servers lb; current_index := current_index lb;
     total_weight := weight_total (servers lb);
     cumulative_weights := weight_sums 0 (servers lb);
     strategy := strategy lb |}.

(** Sum of [current_weight] over all servers. *)
Fixpoint current_total (l : list Server) : Z :=
  match l with
  | [] => 0
  | s :: l' => current_weight s + current_total l'
  end.

(** The server at position [p] is healthy. *)
Definition healthy_at (l : list Server) (p : nat) : Prop :=
  exists s, l !! p = Some s /\ healthy s = true.

(** [b] is the first healthy server with the fewest active connections. *)
Definition least_busy (l : list Server) (k : nat) (best : option nat) : Prop :=
  match best with
  | None => forall j s, (j < k)%nat -> l !! j = Some s -> healthy s = false
  | Some b =>
      (b < k)%nat /\ healthy_at l b /\
      (forall j s, (j < k)%nat -> l !! j = Some s -> healthy s = true ->
         connections_at l b <= active_connections s /\
         ((j < b)%nat -> connections_at l b < active_connections s))
  end.

End Histories.

(** The cache key as the design document words it. *)
Module CacheKeySpec.

Import CacheKey.

(** The value the header mapping gives the lower-cased name [a]: that of the
    header whose lower-cased key is [a], the last inserted one if several
    keys lower-case to [a]. *)
Fixpoint header_value (h : pydict) (a : string) : option string :=
  match h with
  | [] => None
  | kv :: h' =>
      match header_value h' a with
      | Some w => Some w
      | None => if String.eqb (PyStr.lower (fst kv)) a then Some (snd kv) else None
      end
  end.

(** The mapping restricted to the allow-list, keys in sorted order. *)
Definition restricted (header : option pydict) : pydict :=
  match header with
  | None => []
  | Some h =>
      flat_map (fun a => match header_value h a with
                         | Some v => [(a, v)]
                         | None => []
                         end) allow_list
  end.

(** JSON of a mapping whose items are given in sorted key order. *)
Definition json_object (items : pydict) : string :=
  String "{" (String.append (Json.encode_items items) "}").

Definition headers_part (header : option pydict) : string :=
  match restricted header with
  | [] => EmptyString
  | items => colon (json_object items)
  end.

Definition body_part (body : option (list byte)) : string :=
  match body with
  | None | Some [] => EmptyString
  | Some b => colon (Hashlib.MD5.hexdigest b)
  end.

Definition digest_input (method url : string) (header : option pydict)
    (body : option (list byte)) : string :=
  String.append (String.append (String.append method (colon url)) (headers_part header))
                (body_part body).

Definition cache_key (method url : string) (header : option pydict)
    (body : option (list byte)) : string :=
  String.append "cache:"
    (Hashlib.SHA256.hexdigest (PyStr.encode (digest_input method url header body))).

(** Keys all different and all allow-listed. *)
Definition tidy (d : pydict) : Prop :=
  List.NoDup (map fst d) /\ List.Forall (fun k => allowed k = true) (map fst d).




End CacheKeySpec.

(** Concrete balancers and requests the statements are tried on. *)
Module Samples.

Import ServerOps LoadBalancer.

Definition down (nm : string) (w : Z) : Server :=
  set_healthy (ServerOps.__init__ nm w) false.

Definition two_down : LoadBalancer :=
  {| servers := [down "a" 5; down "b" 3];
     current_index := 0; total_weight := 0; cumulative_weights := [];
     strategy := 3 |}.

Definition first_down : LoadBalancer :=
  {| servers := [down "a" 5; ServerOps.__init__ "b" 3];
     current_index := 0; total_weight := 3; cumulative_weights := [3];
     strategy := 9 |}.

(** Two healthy servers of weights 5 and 3 under the weighted round-robin,
    as [LoadBalancer([Server("a", 5), Server("b", 3)], 1)] builds it. *)
Definition fair_pair : LoadBalancer :=
  {| servers := [ServerOps.__init__ "a" 5; ServerOps.__init__ "b" 3];
     current_index := 0; total_weight := 8; cumulative_weights := [5; 8];
     strategy := 1 |}.

(** Round-robin over a list with no healthy server. *)
Definition rr_down : LoadBalancer :=
  {| servers := [down "a" 1];
     current_index := 0; total_weight := 0; cumulative_weights := [];
     strategy := 0 |}.

(** Round-robin over three healthy servers, as
    [LoadBalancer([Server("a"), Server("b"), Server("c")], 0)] builds it, and
    with the cursor at the largest C [int]. *)
Definition rr_fresh : LoadBalancer :=
  {| servers := [ServerOps.__init__ "a" 1; ServerOps.__init__ "b" 1;
                 ServerOps.__init__ "c" 1];
     current_index := 0; total_weight := 3; cumulative_weights := [1; 2; 3];
     strategy := 0 |}.

Definition rr_at_max : LoadBalancer := set_current_index rr_fresh INT_MAX.

(** Round-robin where the middle one of three servers is down. *)
Definition rr_gap : LoadBalancer :=
  {| servers := [ServerOps.__init__ "a" 1; down "b" 1; ServerOps.__init__ "c" 1];
     current_index := 5; total_weight := 2; cumulative_weights := [1; 2];
     strategy := 0 |}.

(** [LoadBalancer([Server("a", 5), Server("b", 3)], 3)]: weighted random
    over weights 5 and 3. *)
Definition weighted_pair : LoadBalancer :=
  {| servers := [ServerOps.__init__ "a" 5; ServerOps.__init__ "b" 3];
     current_index := 0; total_weight := 8; cumulative_weights := [5; 8];
     strategy := 3 |}.

(** The same balancer after [set_healthy(False)] on the second server and no
    [refresh_weight]: the derived state is stale. *)
Definition weighted_pair_stale : LoadBalancer :=
  {| servers := [ServerOps.__init__ "a" 5; down "b" 3];
     current_index := 0; total_weight := 8; cumulative_weights := [5; 8];
     strategy := 3 |}.

(** Least connections over three healthy servers with 2, 1 and 1 requests
    in flight. *)
Definition busy_three : LoadBalancer :=
  {| servers := [increment_connections (increment_connections (ServerOps.__init__ "a" 1));
                 increment_connections (ServerOps.__init__ "b" 1);
                 increment_connections (ServerOps.__init__ "c" 1)];
     current_index := 0; total_weight := 3; cumulative_weights := [1; 2; 3];
     strategy := 4 |}.

(** [weighted_pair_stale] after a successful [refresh_weight]. *)
Definition set_healthy_refreshed_pair : LoadBalancer :=
  {| servers := [ServerOps.__init__ "a" 5; down "b" 3];
     current_index := 0; total_weight := 5; cumulative_weights := [5];
     strategy := 3 |}.

(** Weighted round-robin over two servers of weight 2^30 each: the balancer
    as built while both are down, and after both have been marked healthy. *)
Definition heavy_pair_down : LoadBalancer :=
  {| servers := [down "a" (2 ^ 30); down "b" (2 ^ 30)];
     current_index := 0; total_weight := 0; cumulative_weights := [];
     strategy := 1 |}.

Definition heavy_pair : LoadBalancer :=
  {| servers := [ServerOps.__init__ "a" (2 ^ 30); ServerOps.__init__ "b" (2 ^ 30)];
     current_index := 0; total_weight := 0; cumulative_weights := [];
     strategy := 1 |}.

(** A Redis client whose server is unreachable: every call raises
    [ConnectionError]. *)
Definition unreachable : @CacheManager.RedisClient unit :=
  {| CacheManager.redis_get := fun _ st => (Raise ConnectionError, st);
     CacheManager.redis_setex := fun _ _ _ st => (Raise ConnectionError, st);
     CacheManager.redis_delete := fun _ st => (Raise ConnectionError, st);
     CacheManager.redis_scan := fun _ _ st => (Raise ConnectionError, st) |}.

(** A client over an empty store. *)
Definition empty_store : @CacheManager.RedisClient unit :=
  {| CacheManager.redis_get := fun _ st => (Ok None, st);
     CacheManager.redis_setex := fun _ _ _ st => (Ok tt, st);
     CacheManager.redis_delete := fun _ st => (Ok 0, st);
     CacheManager.redis_scan := fun _ _ st => (Ok (CacheManager.CInt 0, []), st) |}.

Definition manager (c : @CacheManager.RedisClient unit) : @CacheManager.CacheManager unit :=
  {| CacheManager.redis_client := Some c;
     CacheManager.redis_cluster := None;
     CacheManager.default_ttl := 3600 |}.

Definition quiet : @CacheManager.World unit :=
  {| CacheManager.backend := tt; CacheManager.stdout := [] |}.

(** A pickle that stores a string as its UTF-8 bytes and cannot read back
    bytes that start with [0xff]. *)
Definition toy_dumps (v : string) : Exc (list byte) := Ok (PyStr.encode v).
Definition toy_loads (b : list byte) : Exc string :=
  match b with
  | xff :: _ => Raise UnpicklingError
  | _ => Ok EmptyString
  end.

(** A header mapping with two keys that lower-case to the same name, and the
    same mapping built in the other order. *)
Definition accept_twice : CacheKey.pydict :=
  [("Accept", "text/html"); ("accept", "application/json")]%string.


Definition browser_headers : CacheKey.pydict :=
  [("Accept-Language", "en"); ("X-Trace", "1"); ("ACCEPT", "text/html")]%string.

End Samples.

(** * Properties *)

(** ** Test vectors *)

(** The digests agree with [hashlib] on messages of one and of two blocks. *)
Example sha256_abc :
  Hashlib.SHA256.hexdigest (PyStr.encode "abc") =
  "ba7816bf8f01cfea414140de5dae2223b00361a396177a9cb410ff61f20015ad"%string.
Proof. vm_compute. reflexivity. Qed.

Example sha256_two_blocks :
  Hashlib.SHA256.hexdigest
    (PyStr.encode "abcdbcdecdefdefgefghfghighijhijkijkljklmklmnlmnomnopnopq") =
  "248d6a61d20638b8e5c026930c3e6039a33ce45964ff2167f6ecedd419db06c1"%string.
Proof. vm_compute. reflexivity. Qed.

Example sha256_119_bytes :
  Hashlib.SHA256.hexdigest (repeat "a"%byte 119) =
  "31eba51c313a5c08226adf18d4a359cfdfd8d2e816b13f4af952f7ea6584dcfb"%string.
Proof. vm_compute. reflexivity. Qed.

Example md5_empty :
  Hashlib.MD5.hexdigest [] = "d41d8cd98f00b204e9800998ecf8427e"%string.
Proof. vm_compute. reflexivity. Qed.

Example md5_abc :
  Hashlib.MD5.hexdigest (PyStr.encode "abc") = "900150983cd24fb0d6963f7d28e17f72"%string.
Proof. vm_compute. reflexivity. Qed.

Example md5_64_bytes :
  Hashlib.MD5.hexdigest (repeat "a"%byte 64) = "014842d480b571495a4a0363793f7367"%string.
Proof. vm_compute. reflexivity. Qed.

Example md5_120_bytes :
  Hashlib.MD5.hexdigest (repeat "a"%byte 120) = "5f61c0ccad4cac44c75ff505e1f1e537"%string.
Proof. vm_compute. reflexivity. Qed.

(** Keys as the Python code computes them: without headers and body; with a
    body and headers in mixed case; with escaped and non-ASCII characters. *)
Example key_plain :
  CacheKey.generate_cache_key "GET" "/products/1" None None =
  "cache:2e4dc9ce283d984a003b5bc498cae1bc5bd5e04c0c298d5ad71e00b300b994e0"%string.
Proof. vm_compute. reflexivity. Qed.

Example key_headers_body :
  CacheKey.key_parts "GET" "/products/1" (Some Samples.browser_headers)
    (Some (PyStr.encode "hello")) =
  String.append "GET:/products/1:{"
    (String.append (Json.encode_str "accept")
    (String.append ": "
    (String.append (Json.encode_str "text/html")
    (String.append ", "
    (String.append (Json.encode_str "accept-language")
    (String.append ": "
    (String.append (Json.encode_str "en")
                   "}:5d41402abc4b2a76b9719d911017c592"))))))) /\
  CacheKey.generate_cache_key "GET" "/products/1"
    (Some [("Accept-Language", "en"); ("X-Trace", "1"); ("ACCEPT", "a/b")]%string)
    (Some (PyStr.encode "hello")) =
  "cache:57da559b4ae21785cebbfdb4eddaeade4308f6375c1c876c1ae3ca23aae0c09b"%string.
Proof. vm_compute. split; reflexivity. Qed.

Example key_last_insertion_wins :
  CacheKey.generate_cache_key "GET" "/p"
    (Some [("Accept", "a"); ("accept", "b")]%string) None =
  "cache:9087e4d4c760ca4019b74df731baeb33a2aa6501e326ae834f3f9e5a023bee31"%string.
Proof. vm_compute. reflexivity. Qed.

Example key_escapes :
  CacheKey.generate_cache_key "GET"
    (String.append "/p" (String (PyStr.chr 233) EmptyString))
    (Some [("accept"%string,
            String "q" (String Json.dq (String Json.backslash (String (PyStr.chr 10)
              (String (PyStr.chr 127) (String (PyStr.chr 255) EmptyString))))))])
    (Some []) =
  "cache:357bea8df8697093524668228b7e730226ce7dd1f4ae2ec91477085c79202b3c"%string.
Proof. vm_compute. reflexivity. Qed.

(** ** Server: the connection counter *)

Section ServerConnections.

Import ServerOps Histories.

Lemma apply_conn_nonneg (s : Server) (o : conn_op) :
  0 <= active_connections s -> 0 <= active_connections (apply_conn s o).
Proof.
  intros Hs. destruct o; simpl.
  - unfold increment_connections; simpl. lia.
  - unfold decrement_connections.
    destruct (active_connections s >? 0) eqn:Hpos; simpl; lia.
Qed.

Lemma run_conn_nonneg (ops : list conn_op) (s : Server) :
  0 <= active_connections s -> 0 <= active_connections (run_conn ops s).
Proof.
  revert s. induction ops as [|o ops IH]; intros s Hs; simpl; [exact Hs|].
  apply IH, apply_conn_nonneg, Hs.
Qed.

(** C8. The connection counter of a server starts at 0, [increment_connections]
    adds 1, [decrement_connections] subtracts 1 when the counter is strictly
    positive and changes nothing at 0; hence after any sequence of increments
    and decrements on a new server the counter is at least 0. *)
Theorem active_connections_never_negative :
  (forall nm w, active_connections (__init__ nm w) = 0) /\
  (forall s, active_connections (increment_connections s) = active_connections s + 1) /\
  (forall s, 0 < active_connections s ->
             active_connections (decrement_connections s) = active_connections s - 1) /\
  (forall s, active_connections s = 0 -> decrement_connections s = s) /\
  (forall nm w ops, 0 <= active_connections (run_conn ops (__init__ nm w))).
Proof.
  repeat split.
  - intros s Hs. unfold decrement_connections.
    destruct (Z.gtb_spec (active_connections s) 0); [reflexivity | lia].
  - intros s Hs. unfold decrement_connections. rewrite Hs. reflexivity.
  - intros nm w ops. apply run_conn_nonneg. simpl. lia.
Qed.

Lemma active_connections_never_negative_witness :
  active_connections
    (decrement_connections (increment_connections (__init__ "a" 1))) = 1 - 1 /\
  decrement_connections (__init__ "a" 1) = __init__ "a" 1.
Proof.
  destruct active_connections_never_negative as (_ & _ & Hdec & Hzero & _).
  split.
  - apply (Hdec (increment_connections (__init__ "a" 1))). simpl. lia.
  - apply Hzero. reflexivity.
Defined.

End ServerConnections.

(** ** LoadBalancer: dispatch and the empty healthy set *)

Section Dispatch.

Import ServerOps LoadBalancer Histories Samples.

Lemma set_servers_same (lb : LoadBalancer) : set_servers lb (servers lb) = lb.
Proof. destruct lb; reflexivity. Qed.

Lemma healthy_from_unhealthy (l : list Server) (i : nat) :
  all_unhealthy l -> healthy_from i l = [].
Proof.
  intros H. revert i. induction H as [|s l Hs _ IH]; intros i; simpl; [reflexivity|].
  rewrite Hs. apply IH.
Qed.

Lemma wrr_loop_unhealthy (idxs : list nat) (srvs : list Server) best total :
  all_unhealthy srvs -> wrr_loop idxs srvs best total = (Ok (best, total), srvs).
Proof.
  intros H. induction idxs as [|i idxs IH]; simpl; [reflexivity|].
  destruct (srvs !! i) as [s|] eqn:Hi; [|exact IH].
  assert (Hs : healthy s = false).
  { unfold all_unhealthy in H. rewrite Forall_forall in H.
    apply H. eapply list_elem_of_lookup_2. exact Hi. }
  rewrite Hs. simpl. exact IH.
Qed.

Lemma least_loop_unhealthy (l all : list Server) (i : nat) best :
  all_unhealthy l -> least_loop i l all best = best.
Proof.
  intros H. revert i. induction H as [|s l Hs _ IH]; intros i; simpl; [reflexivity|].
  rewrite Hs. simpl. apply IH.
Qed.

(** C7. With no healthy server in the list, [get_next_server] returns none
    under each of the five strategies 0..4 (and leaves the balancer as it
    was), whatever the random generator yields. *)
Theorem no_healthy_server_gives_none (lb : LoadBalancer) (u : Z) :
  all_unhealthy (servers lb) ->
  0 <= strategy lb <= 4 ->
  get_next_server lb u = (Ok None, lb).
Proof.
  intros Hun Hst. unfold get_next_server.
  destruct (Z.eqb_spec (strategy lb) 0) as [_|?].
  { unfold _round_robin, _get_healthy_server.
    rewrite healthy_from_unhealthy by exact Hun. reflexivity. }
  destruct (Z.eqb_spec (strategy lb) 1) as [_|?].
  { unfold _weighted_round_robin.
    rewrite wrr_loop_unhealthy by exact Hun.
    rewrite set_servers_same. reflexivity. }
  destruct (Z.eqb_spec (strategy lb) 2) as [_|?].
  { unfold _random, _get_healthy_server.
    rewrite healthy_from_unhealthy by exact Hun. reflexivity. }
  destruct (Z.eqb_spec (strategy lb) 3) as [_|?].
  { unfold _weighted_random, _get_healthy_server.
    rewrite healthy_from_unhealthy by exact Hun. reflexivity. }
  destruct (Z.eqb_spec (strategy lb) 4) as [_|?].
  { unfold _least_connections.
    rewrite least_loop_unhealthy by exact Hun. reflexivity. }
  lia.
Qed.

Lemma no_healthy_server_gives_none_witness :
  get_next_server two_down 7 = (Ok None, two_down).
Proof.
  apply no_healthy_server_gives_none.
  - repeat constructor.
  - simpl. lia.
Defined.

(** C10. With a strategy value outside 0..4, [get_next_server] returns the
    first server of the list when the list is not empty, healthy or not, and
    none when it is empty; the balancer is left as it was. *)
Theorem unknown_strategy_gives_first_server (lb : LoadBalancer) (u : Z) :
  ~ 0 <= strategy lb <= 4 ->
  (servers lb = [] -> get_next_server lb u = (Ok None, lb)) /\
  (forall s l, servers lb = s :: l ->
     get_next_server lb u = (Ok (Some 0%nat), lb) /\ servers lb !! 0%nat = Some s).
Proof.
  intros Hst. unfold get_next_server.
  destruct (Z.eqb_spec (strategy lb) 0); [lia|].
  destruct (Z.eqb_spec (strategy lb) 1); [lia|].
  destruct (Z.eqb_spec (strategy lb) 2); [lia|].
  destruct (Z.eqb_spec (strategy lb) 3); [lia|].
  destruct (Z.eqb_spec (strategy lb) 4); [lia|].
  split.
  - intros ->. reflexivity.
  - intros s l ->. split; reflexivity.
Qed.

Lemma unknown_strategy_gives_first_server_witness :
  get_next_server first_down 0 = (Ok (Some 0%nat), first_down) /\
  servers first_down !! 0%nat = Some (down "a" 5).
Proof.
  refine (proj2 (unknown_strategy_gives_first_server first_down 0 _) _ _ eq_refl).
  simpl. lia.
Defined.

End Dispatch.

(** ** What a selection and the other operations leave alone *)

Section Frame.

Import ServerOps LoadBalancer Histories Samples.

Lemma frame_set_current_weight (s : Server) (w : Z) :
  frame (set_current_weight s w) = frame s.
Proof. reflexivity. Qed.

Lemma map_insert_same {A B} (f : A -> B) (l : list A) (i : nat) (x y : A) :
  l !! i = Some x -> f y = f x -> map f (<[i := y]> l) = map f l.
Proof.
  revert i. induction l as [|a l IH]; intros i Hi Hf; [reflexivity|].
  destruct i as [|i]; simpl in *.
  - injection Hi as ->. rewrite Hf. reflexivity.
  - f_equal. apply IH; assumption.
Qed.

Lemma map_alter_same {A B} (f : A -> B) (g : A -> A) (l : list A) (i : nat) :
  (forall x, f (g x) = f x) -> map f (alter g i l) = map f l.
Proof.
  intros Hg. revert i. induction l as [|a l IH]; intros i; [reflexivity|].
  destruct i as [|i]; simpl.
  - rewrite Hg. reflexivity.
  - f_equal. apply IH.
Qed.

Lemma wrr_loop_frame (idxs : list nat) (srvs : list Server) best total :
  map frame (snd (wrr_loop idxs srvs best total)) = map frame srvs.
Proof.
  revert srvs best total.
  induction idxs as [|i idxs IH]; intros srvs best total; simpl; [reflexivity|].
  destruct (srvs !! i) as [s|] eqn:Hi; [|apply IH].
  destruct (healthy s); simpl; [|apply IH].
  destruct (as_int _) as [total'|e]; simpl.
  - rewrite IH. eapply map_insert_same; [exact Hi | reflexivity].
  - eapply map_insert_same; [exact Hi | reflexivity].
Qed.

Lemma weighted_round_robin_frame (lb : LoadBalancer) :
  map frame (servers (snd (_weighted_round_robin lb))) = map frame (servers lb).
Proof.
  unfold _weighted_round_robin.
  pose proof (wrr_loop_frame (seq 0 (length (servers lb))) (servers lb) None 0) as H.
  destruct (wrr_loop _ _ _ _) as [[[[b|] total]|e] srvs]; simpl in *; try exact H.
  destruct (srvs !! b) as [s|] eqn:Hb; simpl; [|exact H].
  rewrite <- H. eapply map_insert_same; [exact Hb | reflexivity].
Qed.

Lemma round_robin_servers (lb : LoadBalancer) :
  servers (snd (_round_robin lb)) = servers lb.
Proof.
  unfold _round_robin.
  destruct (_get_healthy_server lb) as [|h hs]; [reflexivity|].
  destruct (getitem _ _); reflexivity.
Qed.

Lemma get_next_server_frame (lb : LoadBalancer) (u : Z) :
  map frame (servers (snd (get_next_server lb u))) = map frame (servers lb) /\
  (strategy lb <> 1 -> servers (snd (get_next_server lb u)) = servers lb).
Proof.
  unfold get_next_server.
  destruct (Z.eqb_spec (strategy lb) 0).
  { rewrite round_robin_servers. split; reflexivity. }
  destruct (Z.eqb_spec (strategy lb) 1).
  { split; [apply weighted_round_robin_frame | intros; lia]. }
  destruct (strategy lb =? 2); [split; reflexivity|].
  destruct (strategy lb =? 3); [split; reflexivity|].
  destruct (strategy lb =? 4); [split; reflexivity|].
  destruct (servers lb) eqn:E; simpl; rewrite E; split; reflexivity.
Qed.

Lemma refresh_weight_servers (lb : LoadBalancer) :
  servers (snd (refresh_weight lb)) = servers lb.
Proof.
  unfold refresh_weight.
  destruct (_calculate_total_weight _); [|reflexivity].
  destruct (_calculate_cumulative_weights _); reflexivity.
Qed.

Lemma static_of_frame (l l' : list Server) :
  map frame l' = map frame l ->
  map static l' = map static l.
Proof.
  intros H.
  assert (E : forall k : list Server,
             map static k = map static (map frame k)).
  { intros k. rewrite map_map. reflexivity. }
  rewrite (E l'), (E l), H. reflexivity.
Qed.

Lemma step_static (lb : LoadBalancer) (o : op) :
  map static (servers (step lb o)) = map static (servers lb).
Proof.
  destruct o as [i|i|i status|u|]; simpl.
  - apply map_alter_same. reflexivity.
  - apply map_alter_same. intros s. unfold decrement_connections.
    destruct (active_connections s >? 0); reflexivity.
  - apply map_alter_same. reflexivity.
  - apply static_of_frame, get_next_server_frame.
  - rewrite refresh_weight_servers. reflexivity.
Qed.

Lemma run_static (ops : list op) (lb : LoadBalancer) :
  map static (servers (run ops lb)) = map static (servers lb).
Proof.
  revert lb. induction ops as [|o ops IH]; intros lb; simpl; [reflexivity|].
  unfold run in IH. rewrite IH. apply step_static.
Qed.

Lemma init_servers (srvs : list Server) (strat : Z) (lb : LoadBalancer) :
  LoadBalancer.__init__ srvs strat = Ok lb -> servers lb = srvs.
Proof.
  unfold LoadBalancer.__init__. intros H.
  destruct (_calculate_total_weight srvs); simpl in H; [|discriminate].
  destruct (as_int strat); simpl in H; [|discriminate].
  destruct (_calculate_cumulative_weights srvs); simpl in H; [|discriminate].
  injection H as <-. reflexivity.
Qed.

(** C9. A new server's effective weight is its static weight, and no
    operation of [Server] or [LoadBalancer] writes it: in every state reached
    from a balancer built over servers configured as [cfg], the servers keep
    the configured names and weights and each effective weight equals the
    configured weight.  A selection leaves every field of every server but
    [current_weight] as it was, and under any strategy other than the
    weighted round-robin leaves the servers untouched. *)
Theorem effective_weight_is_never_written :
  (forall nm w, effective_weight (ServerOps.__init__ nm w) = w) /\
  (forall cfg strat lb0 ops,
     LoadBalancer.__init__ (configure cfg) strat = Ok lb0 ->
     map static (servers (run ops lb0)) =
     map (fun nw => (fst nw, snd nw, snd nw)) cfg) /\
  (forall lb u,
     map frame (servers (snd (get_next_server lb u))) = map frame (servers lb) /\
     (strategy lb <> 1 -> servers (snd (get_next_server lb u)) = servers lb)).
Proof.
  split; [reflexivity|]. split.
  - intros cfg strat lb0 ops Hinit.
    rewrite run_static, (init_servers _ _ _ Hinit).
    unfold configure. rewrite map_map. reflexivity.
  - apply get_next_server_frame.
Qed.

Lemma effective_weight_is_never_written_witness :
  map static
      (servers (run [OpNextServer 0; OpSetHealthy 1 false; OpRefresh; OpNextServer 3;
                     OpIncrement 0; OpNextServer 1; OpDecrement 0]
                    fair_pair)) =
  [("a"%string, 5, 5); ("b"%string, 3, 3)] /\
  servers (snd (get_next_server first_down 0)) = servers first_down.
Proof.
  destruct effective_weight_is_never_written as (_ & Hrun & Hsel).
  split.
  - apply (Hrun [("a"%string, 5); ("b"%string, 3)] 1). reflexivity.
  - apply Hsel. simpl. lia.
Defined.

End Frame.

(** ** Round-robin *)

Section RoundRobin.

Import ServerOps LoadBalancer Histories Samples.

Lemma getitem_lookup {A} (l : list A) (i : Z) (x : A) :
  0 <= i -> l !! Z.to_nat i = Some x -> getitem l i = Ok x.
Proof.
  intros Hi Hx. unfold getitem.
  pose proof (lookup_lt_Some _ _ _ Hx) as Hlt.
  destruct (Z.ltb_spec i 0); [lia|].
  destruct (Z.leb_spec 0 i); [|lia].
  destruct (Z.ltb_spec i (Z.of_nat (length l))); [|lia].
  simpl. rewrite Hx. reflexivity.
Qed.

Lemma wrap_int_id (z : Z) : INT_MIN <= z <= INT_MAX -> wrap_int z = z.
Proof.
  unfold INT_MIN, INT_MAX, wrap_int. intros H.
  rewrite Z.mod_small; lia.
Qed.

Lemma wrap_int_range (z : Z) : INT_MIN <= wrap_int z <= INT_MAX.
Proof.
  unfold INT_MIN, INT_MAX, wrap_int.
  pose proof (Z.mod_pos_bound (z + 2 ^ 31) (2 ^ 32)). lia.
Qed.

Lemma healthy_set_current_index (lb : LoadBalancer) (i : Z) :
  _get_healthy_server (set_current_index lb i) = _get_healthy_server lb.
Proof. reflexivity. Qed.

(** One call on a non-empty healthy list. *)
Lemma round_robin_some (lb : LoadBalancer) :
  _get_healthy_server lb <> [] ->
  let hs := _get_healthy_server lb in
  let k := Z.to_nat (current_index lb mod Z.of_nat (length hs)) in
  hs !! k = Some (nth k hs 0%nat) /\
  _round_robin lb =
    (Ok (Some (nth k hs 0%nat)),
     set_current_index lb (wrap_int (current_index lb + 1))).
Proof.
  intros Hne hs k. subst hs.
  assert (Hlen : 0 < Z.of_nat (length (_get_healthy_server lb))).
  { destruct (_get_healthy_server lb); [congruence | simpl; lia]. }
  pose proof (Z.mod_pos_bound (current_index lb) _ Hlen) as Hb.
  assert (Hk : (k < length (_get_healthy_server lb))%nat) by (subst k; lia).
  destruct (lookup_lt_is_Some_2 _ _ Hk) as [s Hs].
  rewrite (nth_lookup_Some _ _ 0%nat _ Hs).
  split; [exact Hs|].
  unfold _round_robin.
  destruct (_get_healthy_server lb) as [|h hs] eqn:E; [congruence|].
  rewrite (getitem_lookup _ _ s); [reflexivity | lia | exact Hs].
Qed.

Lemma round_robin_calls_results (n : nat) : forall lb : LoadBalancer,
  _get_healthy_server lb <> [] ->
  INT_MIN <= current_index lb ->
  current_index lb + Z.of_nat n <= INT_MAX + 1 ->
  let hs := _get_healthy_server lb in
  fst (round_robin_calls n lb) =
  map (fun j => Ok (Some (nth (Z.to_nat ((current_index lb + Z.of_nat j)
                                          mod Z.of_nat (length hs))) hs 0%nat)))
      (seq 0 n).
Proof.
  induction n as [|n IH]; intros lb Hne Hlo Hhi hs; [reflexivity|].
  cbn [round_robin_calls].
  destruct (round_robin_some lb Hne) as [_ Hcall]. rewrite Hcall.
  set (lb1 := set_current_index lb (wrap_int (current_index lb + 1))).
  destruct (round_robin_calls n lb1) as [rs lb2] eqn:Hrest.
  cbn [fst seq map]. f_equal.
  - rewrite Z.add_0_r. reflexivity.
  - destruct n as [|n'].
    + simpl in Hrest. injection Hrest as <- _. reflexivity.
    + assert (Hc1 : current_index lb1 = current_index lb + 1).
      { subst lb1. cbn [set_current_index current_index].
        apply wrap_int_id. unfold INT_MAX in *. lia. }
      specialize (IH lb1). rewrite Hrest in IH. cbn [fst] in IH.
      rewrite IH; [| exact Hne | lia | lia].
      rewrite <- seq_shift, map_map.
      apply map_ext. intros j. rewrite Hc1.
      replace (current_index lb + 1 + Z.of_nat j)
        with (current_index lb + Z.of_nat (S j)) by lia.
      reflexivity.
Qed.

Lemma mod_shift_inj (c n a b : Z) :
  0 <= a < n -> 0 <= b < n -> (c + a) mod n = (c + b) mod n -> a = b.
Proof.
  intros Ha Hb H.
  assert (Hn : n <> 0) by lia.
  pose proof (Z.div_mod (c + a) n Hn) as Ea.
  pose proof (Z.div_mod (c + b) n Hn) as Eb.
  rewrite H in Ea.
  assert (E : a - b = n * ((c + a) / n - (c + b) / n)) by lia.
  destruct (Z.eq_dec ((c + a) / n - (c + b) / n) 0) as [Hz|Hz]; [lia|].
  exfalso. nia.
Qed.

(** The positions [c mod n], [(c+1) mod n], ..., [(c+n-1) mod n] are all
    of [0..n-1], each once. *)
Lemma rotation_Permutation (c : Z) (n : nat) :
  Permutation (map (fun j => Z.to_nat ((c + Z.of_nat j) mod Z.of_nat n)) (seq 0 n))
              (seq 0 n).
Proof.
  destruct n as [|n']; [constructor|]. set (n := S n').
  assert (Hn : 0 < Z.of_nat n) by (subst n; lia).
  apply NoDup_Permutation_bis.
  - apply NoDup_map_NoDup_ForallPairs; [|apply List.seq_NoDup].
    intros a b Ha Hb Hab.
    apply List.in_seq in Ha, Hb.
    pose proof (Z.mod_pos_bound (c + Z.of_nat a) _ Hn).
    pose proof (Z.mod_pos_bound (c + Z.of_nat b) _ Hn).
    assert (E : Z.of_nat a = Z.of_nat b); [|lia].
    apply (mod_shift_inj c (Z.of_nat n)); lia.
  - rewrite length_map. lia.
  - intros k Hk. apply List.in_map_iff in Hk as (j & <- & Hj).
    apply List.in_seq.
    pose proof (Z.mod_pos_bound (c + Z.of_nat j) _ Hn). lia.
Qed.

Lemma map_nth_seq {A} (l : list A) (d : A) :
  map (fun k => nth k l d) (seq 0 (length l)) = l.
Proof.
  induction l as [|a l IH]; [reflexivity|].
  cbn [length seq map nth]. f_equal.
  rewrite <- seq_shift, map_map. exact IH.
Qed.

(** C3, as the code has it. On an empty healthy set the round-robin strategy
    returns none and leaves the cursor where it was. Otherwise it returns the
    healthy server at index cursor mod (healthy count) and moves the cursor
    on by one, in C [int] arithmetic: below the largest [int] that is
    cursor + 1. Hence over a fixed set of N healthy servers, N consecutive
    calls that do not take the cursor past the largest [int] visit each
    server exactly once. *)
Theorem round_robin_rotation (lb : LoadBalancer) :
  let hs := _get_healthy_server lb in
  let c := current_index lb in
  let n := Z.of_nat (length hs) in
  (hs = [] -> _round_robin lb = (Ok None, lb)) /\
  (hs <> [] ->
     exists s, hs !! Z.to_nat (c mod n) = Some s /\
       _round_robin lb = (Ok (Some s), set_current_index lb (wrap_int (c + 1))) /\
       (INT_MIN <= c < INT_MAX -> wrap_int (c + 1) = c + 1)) /\
  (hs <> [] -> INT_MIN <= c -> c + n <= INT_MAX + 1 ->
     exists visited,
       fst (round_robin_calls (length hs) lb) = map (fun s => Ok (Some s)) visited /\
       Permutation visited hs).
Proof.
  intros hs c n. split; [|split].
  - intros H. unfold _round_robin. fold hs. rewrite H. reflexivity.
  - intros H. destruct (round_robin_some lb H) as [Hs Hcall].
    eexists. split; [exact Hs|]. split; [exact Hcall|].
    intros Hc. apply wrap_int_id. lia.
  - intros H Hlo Hhi.
    exists (map (fun k => nth k hs 0%nat)
              (map (fun j => Z.to_nat ((c + Z.of_nat j) mod n)) (seq 0 (length hs)))).
    split.
    + rewrite (round_robin_calls_results (length hs) lb H Hlo Hhi).
      rewrite !map_map. reflexivity.
    + etransitivity; [apply Permutation_map, rotation_Permutation|].
      rewrite map_nth_seq. reflexivity.
Qed.

Lemma round_robin_rotation_witness :
  _round_robin rr_down = (Ok None, rr_down) /\
  (exists s, _get_healthy_server rr_gap !! Z.to_nat (5 mod 2) = Some s /\
     _round_robin rr_gap = (Ok (Some s), set_current_index rr_gap (wrap_int (5 + 1))) /\
     (INT_MIN <= 5 < INT_MAX -> wrap_int (5 + 1) = 5 + 1)) /\
  (exists visited,
     fst (round_robin_calls 2 rr_gap) = map (fun s => Ok (Some s)) visited /\
     Permutation visited [0%nat; 2%nat]).
Proof.
  split; [|split].
  - apply (proj1 (round_robin_rotation rr_down)). reflexivity.
  - apply (proj1 (proj2 (round_robin_rotation rr_gap))). discriminate.
  - apply (proj2 (proj2 (round_robin_rotation rr_gap))).
    + discriminate.
    + vm_compute. discriminate.
    + vm_compute. discriminate.
Defined.

(** While the cursor stays a C [int], [n] calls on a non-empty healthy set
    move it on by [n] and change nothing else. *)
Lemma round_robin_calls_state (n : nat) : forall lb : LoadBalancer,
  _get_healthy_server lb <> [] ->
  INT_MIN <= current_index lb ->
  current_index lb + Z.of_nat n <= INT_MAX ->
  snd (round_robin_calls n lb) = set_current_index lb (current_index lb + Z.of_nat n).
Proof.
  induction n as [|n IH]; intros lb Hne Hlo Hhi.
  - cbn [round_robin_calls snd]. rewrite Z.add_0_r. destruct lb; reflexivity.
  - cbn [round_robin_calls].
    destruct (round_robin_some lb Hne) as [_ Hcall]. rewrite Hcall.
    rewrite wrap_int_id by lia.
    set (lb1 := set_current_index lb (current_index lb + 1)).
    specialize (IH lb1 Hne).
    destruct (round_robin_calls n lb1) as [rs lb2]. cbn [snd] in *.
    rewrite IH; subst lb1; cbn [set_current_index current_index]; [|lia|lia].
    unfold set_current_index. cbn. f_equal. lia.
Qed.

(** The state with the cursor at the largest [int] is the one reached by
    that many calls on the new balancer. *)
Lemma rr_at_max_reached :
  snd (round_robin_calls (Z.to_nat INT_MAX) rr_fresh) = rr_at_max.
Proof.
  assert (HM : Z.of_nat (Z.to_nat INT_MAX) = INT_MAX) by (apply Z2Nat.id; discriminate).
  rewrite round_robin_calls_state.
  - rewrite HM. reflexivity.
  - discriminate.
  - discriminate.
  - rewrite HM. change (current_index rr_fresh) with 0. lia.
Qed.

(** C3 as worded fails twice: a call on an empty healthy set returns none
    without moving the cursor, and a call at the largest C [int] takes the
    cursor down to the smallest one, after which three calls over three
    healthy servers visit one of them twice. *)
Lemma round_robin_cursor_not_always_incremented :
  (fst (_round_robin rr_down) = Ok None /\
   current_index (snd (_round_robin rr_down)) = current_index rr_down) /\
  (fst (_round_robin rr_at_max) = Ok (Some 1%nat) /\
   current_index (snd (_round_robin rr_at_max)) < current_index rr_at_max) /\
  fst (round_robin_calls 3 rr_at_max) = [Ok (Some 1%nat); Ok (Some 1%nat); Ok (Some 2%nat)].
Proof. vm_compute. repeat split; reflexivity. Qed.

End RoundRobin.

(** ** Weighted random *)

Section WeightedRandom.

Import ServerOps LoadBalancer Histories Samples.

Lemma getitem_nat {A} (l : list A) (k : nat) :
  getitem l (Z.of_nat k) =
  match l !! k with
  | Some x => Ok x
  | None => Raise IndexError
  end.
Proof.
  destruct (l !! k) as [x|] eqn:Hk.
  - apply getitem_lookup; [lia | rewrite Nat2Z.id; exact Hk].
  - apply lookup_ge_None in Hk. unfold getitem.
    destruct (Z.ltb_spec (Z.of_nat k) 0); [lia|].
    destruct (Z.ltb_spec (Z.of_nat k) (Z.of_nat (length l))); [lia|].
    rewrite andb_false_r. reflexivity.
Qed.

Lemma getitem_last {A} (l : list A) (x : A) :
  last l = Some x -> getitem l (-1) = Ok x.
Proof.
  intros Hl. rewrite last_lookup in Hl.
  pose proof (lookup_lt_Some _ _ _ Hl) as Hlt.
  unfold getitem. change (-1 <? 0) with true. cbv iota.
  destruct (Z.leb_spec 0 (-1 + Z.of_nat (length l))); [|lia].
  destruct (Z.ltb_spec (-1 + Z.of_nat (length l)) (Z.of_nat (length l))); [|lia].
  simpl. replace (Z.to_nat (-1 + Z.of_nat (length l))) with (pred (length l)) by lia.
  rewrite Hl. reflexivity.
Qed.

Lemma weighted_scan_first_above (hs : list nat) (rv : Z) (cw : list Z) : forall i : nat,
  weighted_scan hs rv i cw =
  match first_above rv cw with
  | Some j => getitem hs (Z.of_nat (i + j))
  | None => getitem hs (-1)
  end.
Proof.
  induction cw as [|c cw IH]; intros i; simpl; [reflexivity|].
  destruct (rv <? c).
  - rewrite Nat.add_0_r. reflexivity.
  - rewrite IH. destruct (first_above rv cw) as [j|]; simpl; [|reflexivity].
    rewrite Nat.add_succ_r. reflexivity.
Qed.

Lemma randint_range (a b u d : Z) : randint a b u = Ok d -> a <= d <= b.
Proof.
  unfold randint. destruct (Z.ltb_spec b a); [discriminate|].
  intros [= <-]. pose proof (Z.mod_pos_bound u (b - a + 1)). lia.
Qed.

Lemma randint_self (b d : Z) : 0 <= d <= b -> randint 0 b d = Ok d.
Proof.
  intros H. unfold randint. destruct (Z.ltb_spec b 0); [lia|].
  rewrite Z.mod_small by lia. reflexivity.
Qed.

Lemma as_int_ok (z : Z) : INT_MIN <= z <= INT_MAX -> as_int z = Ok z.
Proof.
  intros H. unfold as_int, in_int.
  destruct (Z.leb_spec INT_MIN z); [|lia].
  destruct (Z.leb_spec z INT_MAX); [|lia]. reflexivity.
Qed.

Lemma in_int_range (z : Z) : in_int z = true <-> INT_MIN <= z <= INT_MAX.
Proof. unfold in_int. rewrite andb_true_iff, !Z.leb_le. reflexivity. Qed.

(** What one call does once the generator has drawn [d]. *)
Lemma weighted_random_drawn (lb : LoadBalancer) (u d : Z) :
  _get_healthy_server lb <> [] ->
  randint 0 (wrap_int (total_weight lb - 1)) u = Ok d ->
  _weighted_random lb u =
  match first_above d (cumulative_weights lb) with
  | Some i =>
      match _get_healthy_server lb !! i with
      | Some s => Ok (Some s)
      | None => Raise IndexError
      end
  | None =>
      match last (_get_healthy_server lb) with
      | Some s => Ok (Some s)
      | None => Raise IndexError
      end
  end.
Proof.
  intros Hne Hd. unfold _weighted_random.
  destruct (_get_healthy_server lb) as [|h hs] eqn:E; [congruence|].
  rewrite Hd. cbn [mbind exc_bind].
  pose proof (randint_range _ _ _ _ Hd) as Hr.
  pose proof (wrap_int_range (total_weight lb - 1)) as Hw.
  rewrite as_int_ok by (unfold INT_MIN in *; lia).
  cbn [mbind exc_bind].
  rewrite weighted_scan_first_above.
  destruct (first_above d (cumulative_weights lb)) as [i|].
  - cbn [Nat.add]. rewrite getitem_nat. destruct ((h :: hs) !! i); reflexivity.
  - destruct (last (h :: hs)) as [s|] eqn:Hl.
    + rewrite (getitem_last _ _ Hl). reflexivity.
    + apply last_None in Hl. discriminate.
Qed.

(** C4, as the code has it. On an empty healthy set the weighted random
    strategy returns none. Otherwise, for the draw [d]: when some entry of
    [cumulative_weights] is strictly greater than [d], the result is the
    healthy server at the position of the first such entry if the healthy
    list is that long, and an [IndexError] if it is not (derived state that
    is stale); when no entry is greater than [d], the result is the last
    healthy server. Every [d] with 0 <= d < total_weight is a possible draw.
    With weights 5 and 3 the first server is chosen for the draws 0..4 and
    the second for 5..7. *)
Theorem weighted_random_selection (lb : LoadBalancer) (u d : Z) :
  let hs := _get_healthy_server lb in
  (hs = [] -> _weighted_random lb u = Ok None) /\
  (hs <> [] -> randint 0 (wrap_int (total_weight lb - 1)) u = Ok d ->
     (forall i, first_above d (cumulative_weights lb) = Some i ->
        (forall s, hs !! i = Some s -> _weighted_random lb u = Ok (Some s)) /\
        ((length hs <= i)%nat -> _weighted_random lb u = Raise IndexError)) /\
     (first_above d (cumulative_weights lb) = None ->
        exists s, last hs = Some s /\ _weighted_random lb u = Ok (Some s))) /\
  (in_int (total_weight lb) = true -> 0 <= d < total_weight lb ->
     randint 0 (wrap_int (total_weight lb - 1)) d = Ok d) /\
  ((0 <= d < 5 -> _weighted_random weighted_pair d = Ok (Some 0%nat)) /\
   (5 <= d < 8 -> _weighted_random weighted_pair d = Ok (Some 1%nat))).
Proof.
  intros hs. split; [|split; [|split]].
  - intros H. unfold _weighted_random. fold hs. rewrite H. reflexivity.
  - intros Hne Hd. pose proof (weighted_random_drawn lb u d Hne Hd) as Hcall.
    fold hs in Hcall. split.
    + intros i Hi. rewrite Hi in Hcall. split.
      * intros s Hs. rewrite Hs in Hcall. exact Hcall.
      * intros Hlen. apply lookup_ge_None in Hlen. rewrite Hlen in Hcall. exact Hcall.
    + intros Hnone. rewrite Hnone in Hcall.
      destruct (last hs) as [s|] eqn:Hl.
      * exists s. split; [reflexivity | exact Hcall].
      * apply last_None in Hl. contradiction.
  - intros Hin Hd. apply in_int_range in Hin.
    rewrite wrap_int_id by (unfold INT_MIN, INT_MAX in *; lia).
    apply randint_self. lia.
  - assert (Hdraw : 0 <= d < 8 -> randint 0 (wrap_int (total_weight weighted_pair - 1)) d = Ok d).
    { intros H. apply randint_self. change (wrap_int (total_weight weighted_pair - 1)) with 7. lia. }
    split; intros H.
    + rewrite (weighted_random_drawn weighted_pair d d); [| discriminate | apply Hdraw; lia].
      cbn [cumulative_weights weighted_pair first_above].
      destruct (Z.ltb_spec d 5); [reflexivity | lia].
    + rewrite (weighted_random_drawn weighted_pair d d); [| discriminate | apply Hdraw; lia].
      cbn [cumulative_weights weighted_pair first_above].
      destruct (Z.ltb_spec d 5); [lia|].
      destruct (Z.ltb_spec d 8); [reflexivity | lia].
Qed.

Lemma weighted_random_selection_witness :
  _weighted_random two_down 3 = Ok None /\
  _weighted_random weighted_pair_stale 2 = Ok (Some 0%nat) /\
  _weighted_random weighted_pair_stale 6 = Raise IndexError /\
  randint 0 (wrap_int (total_weight weighted_pair - 1)) 6 = Ok 6 /\
  _weighted_random weighted_pair 4 = Ok (Some 0%nat) /\
  _weighted_random weighted_pair 5 = Ok (Some 1%nat).
Proof.
  split; [|split; [|split; [|split; [|split]]]].
  - apply (proj1 (weighted_random_selection two_down 3 0)). reflexivity.
  - refine (proj1 (proj1 (proj1 (proj2 (weighted_random_selection weighted_pair_stale 2 2))
                                 _ eq_refl) 0%nat eq_refl) 0%nat eq_refl).
    discriminate.
  - refine (proj2 (proj1 (proj1 (proj2 (weighted_random_selection weighted_pair_stale 6 6))
                                 _ eq_refl) 1%nat eq_refl) _).
    + discriminate.
    + simpl. lia.
  - apply (proj1 (proj2 (proj2 (weighted_random_selection weighted_pair 0 6)))).
    + reflexivity.
    + simpl. lia.
  - apply (proj1 (proj2 (proj2 (proj2 (weighted_random_selection weighted_pair 0 4))))). lia.
  - apply (proj2 (proj2 (proj2 (proj2 (weighted_random_selection weighted_pair 0 5))))). lia.
Defined.

(** C4 as worded fails on stale derived state: with weights 5 and 3 and the
    second server marked unhealthy without a refresh, the draw 6 is below
    the total weight 8, its first greater entry is at position 1, and the
    healthy list has no position 1: the call raises instead of returning. *)
Lemma weighted_random_stale_raises :
  LoadBalancer.__init__ (configure [("a"%string, 5); ("b"%string, 3)]) 3 = Ok weighted_pair /\
  run [OpSetHealthy 1 false] weighted_pair = weighted_pair_stale /\
  _get_healthy_server weighted_pair_stale = [0%nat] /\
  0 <= 6 < total_weight weighted_pair_stale /\
  randint 0 (wrap_int (total_weight weighted_pair_stale - 1)) 6 = Ok 6 /\
  first_above 6 (cumulative_weights weighted_pair_stale) = Some 1%nat /\
  _weighted_random weighted_pair_stale 6 = Raise IndexError.
Proof. vm_compute. repeat split; try reflexivity; discriminate. Qed.

End WeightedRandom.

(** ** Smooth weighted round-robin *)

Section WeightedRoundRobin.

Import ServerOps LoadBalancer Histories Samples.

Lemma lookup_map {A B} (f : A -> B) (l : list A) (i : nat) :
  map f l !! i = f <$> (l !! i).
Proof.
  revert i. induction l as [|a l IH]; intros [|i]; simpl; try reflexivity. apply IH.
Qed.

Lemma effective_total_snoc (l : list Server) (s : Server) :
  effective_total (l ++ [s]) =
  effective_total l + (if healthy s then effective_weight s else 0).
Proof. induction l as [|a l IH]; simpl; [lia | rewrite IH; lia]. Qed.

Lemma bump_unhealthy (s : Server) : healthy s = false -> bump s = s.
Proof. unfold bump. intros ->. reflexivity. Qed.

Lemma bump_healthy (s : Server) :
  healthy s = true ->
  bump s = set_current_weight s (current_weight s + effective_weight s).
Proof. unfold bump. intros ->. reflexivity. Qed.

Lemma weight_at_bumped (l : list Server) (b : nat) (s : Server) :
  l !! b = Some s -> weight_at (map bump l) b = current_weight (bump s).
Proof. intros H. unfold weight_at. rewrite lookup_map, H. reflexivity. Qed.

(** The store after the first [k] servers have been visited. *)
Lemma visited_lookup_lt (l : list Server) (k b : nat) :
  (b < k)%nat -> (k <= length l)%nat ->
  (map bump (take k l) ++ drop k l) !! b = map bump l !! b.
Proof.
  intros Hb Hk.
  rewrite lookup_app_l by (rewrite length_map, length_take; lia).
  rewrite !lookup_map, lookup_take_lt by lia. reflexivity.
Qed.

Lemma visited_lookup_next (l : list Server) (k : nat) :
  (k <= length l)%nat -> (map bump (take k l) ++ drop k l) !! k = l !! k.
Proof.
  intros Hk.
  rewrite lookup_app_r by (rewrite length_map, length_take; lia).
  rewrite length_map, length_take, lookup_drop.
  f_equal. lia.
Qed.

Lemma visited_step (l : list Server) (k : nat) (s : Server) :
  l !! k = Some s ->
  <[k := bump s]> (map bump (take k l) ++ drop k l) =
  map bump (take (S k) l) ++ drop (S k) l.
Proof.
  intros Hs. pose proof (lookup_lt_Some _ _ _ Hs) as Hlt.
  rewrite (take_S_r _ _ _ Hs), map_app, <- app_assoc. simpl.
  rewrite insert_app_r_alt by (rewrite length_map, length_take; lia).
  rewrite length_map, length_take.
  replace (k - k `min` length l)%nat with 0%nat by lia.
  rewrite (drop_S _ _ _ Hs). reflexivity.
Qed.

Lemma visited_skip (l : list Server) (k : nat) (s : Server) :
  l !! k = Some s -> healthy s = false ->
  map bump (take k l) ++ drop k l = map bump (take (S k) l) ++ drop (S k) l.
Proof.
  intros Hs Hh. rewrite <- (visited_step l k s Hs), (bump_unhealthy s Hh).
  symmetry. apply list_insert_id.
  rewrite visited_lookup_next by (apply lookup_lt_Some in Hs; lia). exact Hs.
Qed.

Lemma wrr_loop_invariant (l : list Server) (n : nat) : forall (k : nat) best,
  total_fits l ->
  (k + n = length l)%nat ->
  first_best l k best ->
  exists best',
    wrr_loop (seq k n) (map bump (take k l) ++ drop k l) best (effective_total (take k l))
    = (Ok (best', effective_total l), map bump l) /\
    first_best l (length l) best'.
Proof.
  induction n as [|n IH]; intros k best Hfit Hk Hbest.
  - assert (k = length l) by lia. subst k.
    exists best. rewrite take_ge, drop_ge, app_nil_r by lia.
    split; [reflexivity | exact Hbest].
  - cbn [seq wrr_loop].
    rewrite visited_lookup_next by lia.
    destruct (l !! k) as [s|] eqn:Hs; [|apply lookup_ge_None in Hs; lia].
    destruct (healthy s) eqn:Hh; cbn [negb].
    + rewrite <- (bump_healthy s Hh), (visited_step l k s Hs).
      assert (Htot : effective_total (take k l) + effective_weight (bump s)
                     = effective_total (take (S k) l)).
      { rewrite (take_S_r _ _ _ Hs), effective_total_snoc, Hh.
        rewrite (bump_healthy s Hh). reflexivity. }
      rewrite Htot, as_int_ok by (apply in_int_range, Hfit).
      apply IH; [exact Hfit | lia |].
      destruct best as [b|].
      * destruct Hbest as (Hb & Hbs & Hmax).
        rewrite <- (visited_step l k s Hs).
        unfold weight_at at 1.
        rewrite list_lookup_insert_ne by lia.
        rewrite visited_lookup_lt by lia.
        fold (weight_at (map bump l) b).
        destruct (Z.gtb_spec (current_weight (bump s)) (weight_at (map bump l) b)) as [Hgt|Hle].
        -- split; [lia|]. split; [exists s; split; assumption|].
           intros j sj Hj Hsj Hhj.
           rewrite (weight_at_bumped l k s Hs).
           destruct (Nat.eq_dec j k) as [->|Hne].
           ++ rewrite Hs in Hsj. injection Hsj as <-. lia.
           ++ destruct (Hmax j sj ltac:(lia) Hsj Hhj) as [Hle _]. lia.
        -- split; [lia|]. split; [exact Hbs|].
           intros j sj Hj Hsj Hhj.
           destruct (Nat.eq_dec j k) as [->|Hne].
           ++ rewrite Hs in Hsj. injection Hsj as <-. lia.
           ++ apply Hmax; [lia | assumption | assumption].
      * split; [lia|]. split; [exists s; split; assumption|].
        intros j sj Hj Hsj Hhj.
        rewrite (weight_at_bumped l k s Hs).
        destruct (Nat.eq_dec j k) as [->|Hne].
        -- rewrite Hs in Hsj. injection Hsj as <-. lia.
        -- rewrite (Hbest j sj ltac:(lia) Hsj) in Hhj. discriminate.
    + rewrite (visited_skip l k s Hs Hh).
      assert (Htot : effective_total (take k l) = effective_total (take (S k) l)).
      { rewrite (take_S_r _ _ _ Hs), effective_total_snoc, Hh. lia. }
      rewrite Htot.
      apply IH; [exact Hfit | lia |].
      destruct best as [b|].
      * destruct Hbest as (Hb & Hbs & Hmax).
        split; [lia|]. split; [exact Hbs|].
        intros j sj Hj Hsj Hhj.
        destruct (Nat.eq_dec j k) as [->|Hne].
        -- rewrite Hs in Hsj. injection Hsj as <-. congruence.
        -- apply Hmax; [lia | assumption | assumption].
      * intros j sj Hj Hsj.
        destruct (Nat.eq_dec j k) as [->|Hne].
        -- rewrite Hs in Hsj. injection Hsj as <-. exact Hh.
        -- apply (Hbest j sj); [lia | assumption].
Qed.

Lemma wrr_loop_whole (l : list Server) :
  total_fits l ->
  exists best,
    wrr_loop (seq 0 (length l)) l None 0 = (Ok (best, effective_total l), map bump l) /\
    first_best l (length l) best.
Proof.
  intros Hfit.
  destruct (wrr_loop_invariant l (length l) 0 None Hfit eq_refl) as (best & Hloop & Hbest).
  { intros j s Hj. lia. }
  exists best. split; [|exact Hbest].
  rewrite take_0, drop_0 in Hloop. exact Hloop.
Qed.

(** C2, as the code has it. With no healthy server the weighted round-robin
    returns none and changes nothing. With at least one, and as long as the
    running total of the effective weights stays a C [int], every healthy
    server's [current_weight] is raised by its [effective_weight], the server
    returned is the first healthy one (in stored order) whose raised
    [current_weight] is maximal, and the winner's [current_weight] alone is
    then lowered by the sum of [effective_weight] over the healthy servers. *)
Theorem weighted_round_robin_selection (lb : LoadBalancer) :
  (all_unhealthy (servers lb) -> _weighted_round_robin lb = (Ok None, lb)) /\
  (total_fits (servers lb) ->
   (exists s, s ∈ servers lb /\ healthy s = true) ->
   exists b s,
     servers lb !! b = Some s /\
     first_best (servers lb) (length (servers lb)) (Some b) /\
     _weighted_round_robin lb =
       (Ok (Some b),
        set_servers lb
          (<[b := set_current_weight s
                    (current_weight s + effective_weight s
                     - effective_total (servers lb))]>
             (map bump (servers lb))))).
Proof.
  split.
  - intros Hun. unfold _weighted_round_robin.
    rewrite wrr_loop_unhealthy by exact Hun.
    rewrite set_servers_same. reflexivity.
  - intros Hfit (s0 & Hin & Hh0).
    destruct (wrr_loop_whole (servers lb) Hfit) as (best & Hloop & Hbest).
    destruct best as [b|].
    + pose proof Hbest as (Hb & (s & Hs & Hh) & Hmax).
      exists b, s. split; [exact Hs|]. split; [exact Hbest|].
      unfold _weighted_round_robin. rewrite Hloop.
      rewrite lookup_map, Hs. cbn [fmap option_fmap option_map].
      rewrite (bump_healthy s Hh). reflexivity.
    + exfalso. apply list_elem_of_lookup in Hin as (j & Hj).
      pose proof (lookup_lt_Some _ _ _ Hj) as Hlt.
      rewrite (Hbest j s0 Hlt Hj) in Hh0. discriminate.
Qed.

Lemma fair_pair_total_fits : total_fits (servers fair_pair).
Proof.
  intros k. destruct k as [|[|[|k]]]; reflexivity.
Defined.

Lemma weighted_round_robin_selection_witness :
  _weighted_round_robin (set_servers fair_pair [down "a" 5; down "b" 3]) =
    (Ok None, set_servers fair_pair [down "a" 5; down "b" 3]) /\
  exists b s,
    servers fair_pair !! b = Some s /\
    first_best (servers fair_pair) 2 (Some b) /\
    _weighted_round_robin fair_pair =
      (Ok (Some b),
       set_servers fair_pair
         (<[b := set_current_weight s (current_weight s + effective_weight s - 8)]>
            (map bump (servers fair_pair)))).
Proof.
  split.
  - apply (proj1 (weighted_round_robin_selection _)). repeat constructor.
  - apply (proj2 (weighted_round_robin_selection fair_pair)).
    + exact fair_pair_total_fits.
    + exists (ServerOps.__init__ "a" 5). split; [|reflexivity].
      apply list_elem_of_here.
Defined.

(** C2 as worded fails where the running total leaves the C [int] range:
    with two healthy servers of effective weight 2^30 the call raises
    [OverflowError] after raising both current weights, and returns no
    server. *)
Lemma weighted_round_robin_overflow :
  LoadBalancer.__init__ (servers heavy_pair_down) 1 = Ok heavy_pair_down /\
  run [OpSetHealthy 0 true; OpSetHealthy 1 true] heavy_pair_down = heavy_pair /\
  (exists s, s ∈ servers heavy_pair /\ healthy s = true) /\
  fst (_weighted_round_robin heavy_pair) = Raise OverflowError /\
  map current_weight (servers (snd (_weighted_round_robin heavy_pair))) = [2 ^ 30; 2 ^ 30].
Proof.
  split; [reflexivity|]. split; [reflexivity|]. split.
  - exists (ServerOps.__init__ "a" (2 ^ 30)). split; [apply list_elem_of_here | reflexivity].
  - vm_compute. split; reflexivity.
Qed.

Example weighted_round_robin_5_3 :
  fst (_weighted_round_robin fair_pair) = Ok (Some 0%nat) /\
  map current_weight (servers (snd (_weighted_round_robin fair_pair))) = [-3; 3].
Proof. vm_compute. split; reflexivity. Qed.

End WeightedRoundRobin.

(** ** CacheManager: the store operations fail closed *)

Section FailClosed.

Import CacheManager Samples.

Context {St Value : Type}.
Variable pickle_loads : list byte -> Exc Value.
Variable pickle_dumps : Value -> Exc (list byte).

Lemma io_try_caught {A} (body : @IO St A) (msg : string) (dflt : A) w w' (e : exn) :
  is_Exception e = true ->
  body w = Some (Raise e, w') ->
  io_try body (on_error msg dflt) w = Some (Ok dflt, logged msg e w').
Proof.
  intros He Hb. unfold io_try. rewrite Hb, He. reflexivity.
Qed.

Lemma io_try_passes {A} (body : @IO St A) (h : exn -> IO A) w w' (a : A) :
  body w = Some (Ok a, w') -> io_try body h w = Some (Ok a, w').
Proof. intros Hb. unfold io_try. rewrite Hb. reflexivity. Qed.

Lemma io_try_contained {A} (body : @IO St A) (msg : string) (dflt : A) w w' r :
  io_try body (on_error msg dflt) w = Some (r, w') -> contained r.
Proof.
  unfold io_try. destruct (body w) as [[[a|e] w1]|]; [| |discriminate].
  - intros [= <- _]. exact I.
  - destruct (is_Exception e) eqn:He.
    + intros [= <- _]. exact I.
    + intros [= <- _]. exact He.
Qed.

Lemma scan_loop_S (c : @RedisClient St) (fuel : nat) (cur : cursor) :
  scan_loop (S fuel) c cur =
  if cursor_truthy cur then
    io_bind (io_call (redis_scan c cur 100)) (fun page =>
    io_bind (delete_if_any (redis_delete c) (snd page)) (fun _ =>
    if cursor_is_b0 (fst page) then io_ret tt else scan_loop fuel c (fst page)))
  else io_ret tt.
Proof. reflexivity. Qed.

(** More fuel does not change a scan that finished. *)
Lemma scan_loop_fuel (c : @RedisClient St) (fuel : nat) : forall cur w r,
  scan_loop fuel c cur w = Some r -> scan_loop (S fuel) c cur w = Some r.
Proof.
  induction fuel as [|fuel IH]; intros cur w r.
  - simpl. destruct (cursor_truthy cur); [discriminate | auto].
  - intros H. rewrite scan_loop_S. rewrite scan_loop_S in H.
    destruct (cursor_truthy cur); [|exact H].
    unfold io_bind in *.
    destruct (io_call (redis_scan c cur 100) w) as [[[page|e] w1]|]; [| exact H | exact H].
    destruct (delete_if_any (redis_delete c) (snd page) w1) as [[[u|e] w2]|];
      [| exact H | exact H].
    destruct (cursor_is_b0 (fst page)); [exact H|].
    apply IH, H.
Qed.

(** What the try blocks do when a call of a connected single-node client, or
    the (de)serialisation, raises. *)
Lemma get_body_call_raises (cm : @CacheManager St) (c : @RedisClient St) key w st (e : exn) :
  redis_cluster cm = None -> redis_client cm = Some c ->
  redis_get c key (backend w) = (Raise e, st) ->
  get_body pickle_loads cm key w = Some (Raise e, after_call st w).
Proof.
  intros Hcl Hc Hcall. unfold get_body, with_client, io_bind, io_call.
  rewrite Hcl, Hc, Hcall. reflexivity.
Qed.

Lemma get_body_loads_raises (cm : @CacheManager St) (c : @RedisClient St) key w st b d (e : exn) :
  redis_cluster cm = None -> redis_client cm = Some c ->
  redis_get c key (backend w) = (Ok (Some (b :: d)), st) ->
  pickle_loads (b :: d) = Raise e ->
  get_body pickle_loads cm key w = Some (Raise e, after_call st w).
Proof.
  intros Hcl Hc Hcall Hl. unfold get_body, with_client, io_bind, io_call, io_exc.
  rewrite Hcl, Hc, Hcall, Hl. reflexivity.
Qed.

Lemma get_body_miss (cm : @CacheManager St) (c : @RedisClient St) key w st :
  redis_cluster cm = None -> redis_client cm = Some c ->
  redis_get c key (backend w) = (Ok None, st) ->
  get_body pickle_loads cm key w = Some (Ok None, after_call st w).
Proof.
  intros Hcl Hc Hcall. unfold get_body, with_client, io_bind, io_call.
  rewrite Hcl, Hc, Hcall. reflexivity.
Qed.

Lemma set_body_dumps_raises (cm : @CacheManager St) key v ttl w (e : exn) :
  pickle_dumps v = Raise e ->
  set_body pickle_dumps cm key v ttl w = Some (Raise e, w).
Proof.
  intros Hd. unfold set_body, io_bind, io_exc. rewrite Hd. reflexivity.
Qed.

Lemma set_body_call_raises (cm : @CacheManager St) (c : @RedisClient St) key v ttl w st b (e : exn) :
  redis_cluster cm = None -> redis_client cm = Some c ->
  pickle_dumps v = Ok b ->
  redis_setex c key (if ttl =? -1 then default_ttl cm else ttl) b (backend w) = (Raise e, st) ->
  set_body pickle_dumps cm key v ttl w = Some (Raise e, after_call st w).
Proof.
  intros Hcl Hc Hd Hcall. unfold set_body, with_client, io_bind, io_call, io_exc.
  rewrite Hd, Hcl, Hc, Hcall. reflexivity.
Qed.

Lemma delete_body_call_raises (cm : @CacheManager St) (c : @RedisClient St) key w st (e : exn) :
  redis_cluster cm = None -> redis_client cm = Some c ->
  redis_delete c [KStr key] (backend w) = (Raise e, st) ->
  delete_body cm key w = Some (Raise e, after_call st w).
Proof.
  intros Hcl Hc Hcall. unfold delete_body, with_client, io_bind, io_call.
  rewrite Hcl, Hc, Hcall. reflexivity.
Qed.

Lemma clear_all_body_scan_raises (cm : @CacheManager St) (c : @RedisClient St) fuel w st (e : exn) :
  redis_cluster cm = None -> redis_client cm = Some c ->
  redis_scan c (CBytes ["0"%byte]) 100 (backend w) = (Raise e, st) ->
  clear_all_body (S fuel) cm w = Some (Raise e, after_call st w).
Proof.
  intros Hcl Hc Hcall. unfold clear_all_body, with_client. rewrite Hcl, Hc.
  rewrite scan_loop_S. unfold io_bind, io_call. simpl. rewrite Hcall. reflexivity.
Qed.

Lemma not_connected_raises (cm : @CacheManager St) key w :
  redis_cluster cm = None -> redis_client cm = None ->
  get_body pickle_loads cm key w = Some (Raise AttributeError, w).
Proof.
  intros Hcl Hc. unfold get_body, with_client, io_bind. rewrite Hcl, Hc. reflexivity.
Qed.

(** [set] on a time to live that fits a C [int] is its try block; on one
    that does not, the conversion of the argument raises and nothing else is
    done. *)
Lemma set_ttl_fits (cm : @CacheManager St) key v ttl :
  in_int ttl = true ->
  set pickle_dumps cm key v ttl
  = io_try (set_body pickle_dumps cm key v ttl) (on_error "Cache set error" false).
Proof.
  intros Hfit. unfold set, as_int. rewrite Hfit. reflexivity.
Qed.

Lemma set_ttl_overflows (cm : @CacheManager St) key v ttl w :
  in_int ttl = false ->
  set pickle_dumps cm key v ttl w = Some (Raise OverflowError, w).
Proof.
  intros Hfit. unfold set, as_int, io_bind, io_exc. rewrite Hfit. reflexivity.
Qed.

(** C5. Every store operation of [CacheManager] fails closed. Whenever its
    try block (all it does with the backend and with pickle) raises an
    exception derived from [Exception], [get] returns [None], and [set],
    [delete] and [clear_all] return [False], after printing the error; no such
    exception ever comes out of the four operations; and a [get] that failed
    returns what a [get] that missed returns. For a connected single-node
    client this covers a raising [get], [setex], [delete] or [scan] call and a
    raising [pickle.loads] or [pickle.dumps]. The try block of [set] is
    entered once its [int ttl] argument has been converted: the statements
    about [set] are for a time to live that fits a C [int]; with one that
    does not, the call raises [OverflowError] before the try block and the
    store is not reached. *)
Theorem store_operations_fail_closed
    (cm : @CacheManager St) (c : @RedisClient St) (key : string) (v : Value)
    (ttl : Z) (fuel : nat) (w w' : @World St) (st : St) (e : exn) :
  is_Exception e = true ->
  (* the try block raises *)
  ((get_body pickle_loads cm key w = Some (Raise e, w') ->
      get pickle_loads cm key w = Some (Ok None, logged "Cache get error" e w')) /\
   (in_int ttl = true -> set_body pickle_dumps cm key v ttl w = Some (Raise e, w') ->
      set pickle_dumps cm key v ttl w = Some (Ok false, logged "Cache set error" e w')) /\
   (delete_body cm key w = Some (Raise e, w') ->
      delete cm key w = Some (Ok false, logged "Cache delete error" e w')) /\
   (clear_all_body fuel cm w = Some (Raise e, w') ->
      clear_all fuel cm w = Some (Ok false, logged "Cache clear error" e w'))) /\
  (* nothing derived from Exception is propagated *)
  (forall w1,
     (forall r, get pickle_loads cm key w = Some (r, w1) -> contained r) /\
     (forall r, in_int ttl = true ->
        set pickle_dumps cm key v ttl w = Some (r, w1) -> contained r) /\
     (forall r, delete cm key w = Some (r, w1) -> contained r) /\
     (forall r, clear_all fuel cm w = Some (r, w1) -> contained r)) /\
  (* a miss gives the result of a failure *)
  (get_body pickle_loads cm key w = Some (Ok None, w') ->
     get pickle_loads cm key w = Some (Ok None, w')) /\
  (* a time to live that does not fit: raised at the call, nothing is done *)
  (in_int ttl = false ->
     set pickle_dumps cm key v ttl w = Some (Raise OverflowError, w)) /\
  (* a connected single-node client *)
  (redis_cluster cm = None -> redis_client cm = Some c ->
   (redis_get c key (backend w) = (Raise e, st) ->
      get pickle_loads cm key w
      = Some (Ok None, logged "Cache get error" e (after_call st w))) /\
   (forall b d, redis_get c key (backend w) = (Ok (Some (b :: d)), st) ->
      pickle_loads (b :: d) = Raise e ->
      get pickle_loads cm key w
      = Some (Ok None, logged "Cache get error" e (after_call st w))) /\
   (redis_get c key (backend w) = (Ok None, st) ->
      get pickle_loads cm key w = Some (Ok None, after_call st w)) /\
   (in_int ttl = true -> pickle_dumps v = Raise e ->
      set pickle_dumps cm key v ttl w = Some (Ok false, logged "Cache set error" e w)) /\
   (forall b, in_int ttl = true -> pickle_dumps v = Ok b ->
      redis_setex c key (if ttl =? -1 then default_ttl cm else ttl) b (backend w)
      = (Raise e, st) ->
      set pickle_dumps cm key v ttl w
      = Some (Ok false, logged "Cache set error" e (after_call st w))) /\
   (redis_delete c [KStr key] (backend w) = (Raise e, st) ->
      delete cm key w = Some (Ok false, logged "Cache delete error" e (after_call st w))) /\
   (redis_scan c (CBytes ["0"%byte]) 100 (backend w) = (Raise e, st) ->
      clear_all (S fuel) cm w
      = Some (Ok false, logged "Cache clear error" e (after_call st w)))).
Proof.
  intros He. split; [|split; [|split; [|split]]].
  - repeat split; try (intros H; apply io_try_caught; assumption).
    intros Hfit H. rewrite set_ttl_fits by exact Hfit. apply io_try_caught; assumption.
  - intros w1. repeat split; try (intros r H; eapply io_try_contained; exact H).
    intros r Hfit H. rewrite set_ttl_fits in H by exact Hfit.
    eapply io_try_contained; exact H.
  - intros H. eapply io_try_passes. exact H.
  - apply set_ttl_overflows.
  - intros Hcl Hc. repeat split.
    + intros H. apply io_try_caught; [exact He|].
      eapply get_body_call_raises; eassumption.
    + intros b d H Hl. apply io_try_caught; [exact He|].
      eapply get_body_loads_raises; eassumption.
    + intros H. eapply io_try_passes. eapply get_body_miss; eassumption.
    + intros Hfit H. rewrite set_ttl_fits by exact Hfit.
      apply io_try_caught; [exact He|].
      apply set_body_dumps_raises. exact H.
    + intros b Hfit Hd H. rewrite set_ttl_fits by exact Hfit.
      apply io_try_caught; [exact He|].
      eapply set_body_call_raises; eassumption.
    + intros H. apply io_try_caught; [exact He|].
      eapply delete_body_call_raises; eassumption.
    + intros H. apply io_try_caught; [exact He|].
      eapply clear_all_body_scan_raises; eassumption.
Qed.

End FailClosed.

Section FailClosedSample.

Import Samples.

Lemma store_operations_fail_closed_witness :
  let cm := manager unreachable in
  let failed := CacheManager.logged in
  CacheManager.get toy_loads cm "k" quiet
    = Some (Ok None, failed "Cache get error"%string ConnectionError quiet) /\
  CacheManager.set toy_dumps cm "k" "v"%string (-1) quiet
    = Some (Ok false, failed "Cache set error"%string ConnectionError quiet) /\
  CacheManager.delete cm "k" quiet
    = Some (Ok false, failed "Cache delete error"%string ConnectionError quiet) /\
  CacheManager.clear_all 1 cm quiet
    = Some (Ok false, failed "Cache clear error"%string ConnectionError quiet) /\
  CacheManager.get toy_loads (manager empty_store) "k" quiet = Some (Ok None, quiet) /\
  CacheManager.set toy_dumps cm "k" "v"%string (2 ^ 31) quiet
    = Some (Raise OverflowError, quiet).
Proof.
  intros cm failed.
  pose proof (store_operations_fail_closed toy_loads toy_dumps cm unreachable
                "k" "v"%string (-1) 0 quiet quiet tt ConnectionError eq_refl)
    as (_ & _ & _ & _ & Hnode).
  destruct (Hnode eq_refl eq_refl) as (Hget & _ & _ & _ & Hset & Hdel & Hclear).
  pose proof (store_operations_fail_closed toy_loads toy_dumps (manager empty_store)
                empty_store "k" "v"%string (-1) 0 quiet quiet tt ConnectionError eq_refl)
    as (_ & _ & _ & _ & Hnode').
  destruct (Hnode' eq_refl eq_refl) as (_ & _ & Hmiss & _).
  pose proof (store_operations_fail_closed toy_loads toy_dumps cm unreachable
                "k" "v"%string (2 ^ 31) 0 quiet quiet tt ConnectionError eq_refl)
    as (_ & _ & _ & Hbig & _).
  split; [exact (Hget eq_refl)|].
  split; [exact (Hset _ eq_refl eq_refl eq_refl)|].
  split; [exact (Hdel eq_refl)|].
  split; [exact (Hclear eq_refl)|].
  split; [exact (Hmiss eq_refl)|].
  exact (Hbig eq_refl).
Defined.

End FailClosedSample.

(** ** The cache key *)

Section CacheKeyCodec.

Import CacheKey CacheKeySpec.


Lemma append_assoc (s t r : string) :
  String.append (String.append s t) r = String.append s (String.append t r).
Proof. induction s as [|c s IH]; simpl; [reflexivity | rewrite IH; reflexivity]. Qed.

Lemma dict_get_set (d : pydict) (k v a : string) :
  dict_get (dict_set d k v) a = if String.eqb k a then Some v else dict_get d a.
Proof.
  induction d as [|[k' v'] d IH]; simpl.
  - reflexivity.
  - destruct (String.eqb_spec k' k) as [->|Hne]; simpl.
    + destruct (String.eqb k a); reflexivity.
    + rewrite IH. destruct (String.eqb_spec k' a) as [->|Hne'].
      * destruct (String.eqb_spec k a) as [->|_]; [congruence | reflexivity].
      * reflexivity.
Qed.

Lemma dict_get_None (d : pydict) (k : string) :
  ~ In k (map fst d) -> dict_get d k = None.
Proof.
  induction d as [|[k' v'] d IH]; simpl; intros H; [reflexivity|].
  destruct (String.eqb_spec k' k) as [->|_]; [tauto|]. apply IH. tauto.
Qed.

Lemma dict_set_keys (d : pydict) (k v : string) :
  map fst (dict_set d k v) = if existsb (String.eqb k) (map fst d)
                             then map fst d else map fst d ++ [k].
Proof.
  induction d as [|[k' v'] d IH]; simpl; [reflexivity|].
  rewrite (String.eqb_sym k k').
  destruct (String.eqb k' k); simpl; [reflexivity|].
  rewrite IH. destruct (existsb _ _); reflexivity.
Qed.

Lemma NoDup_snoc {A} (l : list A) (k : A) :
  List.NoDup l -> ~ In k l -> List.NoDup (l ++ [k]).
Proof.
  induction l as [|a l IH]; simpl; intros Hnd Hk.
  - constructor; [tauto | constructor].
  - inversion Hnd as [|? ? Ha Hl]; subst. constructor.
    + rewrite in_app_iff. simpl. intros [H|[H|[]]]; [tauto | subst; tauto].
    + apply IH; tauto.
Qed.

Lemma dict_set_tidy (d : pydict) (k v : string) :
  allowed k = true -> tidy d -> tidy (dict_set d k v).
Proof.
  intros Hk [Hnd Hall]. unfold tidy. rewrite dict_set_keys.
  destruct (existsb (String.eqb k) (map fst d)) eqn:Hex; [split; assumption|].
  split.
  - apply NoDup_snoc; [exact Hnd|].
    intros Hin.
    assert (existsb (String.eqb k) (map fst d) = true); [|congruence].
    apply existsb_exists. exists k. split; [exact Hin | apply String.eqb_refl].
  - apply List.Forall_app. split; [exact Hall | constructor; [exact Hk | constructor]].
Qed.

Lemma allowed_cases (k : string) :
  allowed k = true ->
  k = "accept"%string \/ k = "accept-encoding"%string \/ k = "accept-language"%string.
Proof.
  unfold allowed, allow_list. simpl. rewrite !orb_true_iff, !String.eqb_eq.
  intuition discriminate.
Qed.


Lemma keep_header_get (d : pydict) (kv : string * string) (a : string) :
  allowed a = true ->
  dict_get (keep_header d kv) a =
  if String.eqb (PyStr.lower (fst kv)) a then Some (snd kv) else dict_get d a.
Proof.
  intros Ha. unfold keep_header.
  destruct (allowed (PyStr.lower (fst kv))) eqn:Hk.
  - apply dict_get_set.
  - destruct (String.eqb_spec (PyStr.lower (fst kv)) a) as [E|_]; [congruence | reflexivity].
Qed.

Lemma fold_keep_header_get (h : pydict) : forall (d : pydict) (a : string),
  allowed a = true ->
  dict_get (fold_left keep_header h d) a =
  match header_value h a with
  | Some v => Some v
  | None => dict_get d a
  end.
Proof.
  induction h as [|kv h IH]; intros d a Ha; simpl; [reflexivity|].
  rewrite IH by exact Ha.
  destruct (header_value h a) as [w|]; [reflexivity|].
  rewrite keep_header_get by exact Ha.
  destruct (String.eqb _ a); reflexivity.
Qed.

Lemma fold_keep_header_tidy (h : pydict) : forall d : pydict,
  tidy d -> tidy (fold_left keep_header h d).
Proof.
  induction h as [|kv h IH]; intros d Hd; simpl; [exact Hd|].
  apply IH. unfold keep_header.
  destruct (allowed (PyStr.lower (fst kv))) eqn:Hk; [|exact Hd].
  apply dict_set_tidy; assumption.
Qed.

Lemma cache_headers_tidy (h : pydict) : tidy (cache_headers h).
Proof.
  apply fold_keep_header_tidy. split; constructor.
Qed.






(** *** Reordering and irrelevant headers *)









(** *** Different accept values give different digest inputs *)










End CacheKeyCodec.

Section CacheKeySamples.

Import CacheKey CacheKeySpec Samples.



End CacheKeySamples.

(** * Further properties of the code *)

(** ** Server: the connection counter counts the requests in flight *)

Section ServerInFlight.

Import ServerOps Histories.

Lemma run_conn_bracketed (ops : list conn_op) : forall s : Server,
  bracketed (active_connections s) ops ->
  active_connections (run_conn ops s)
  = active_connections s + increments ops - decrements ops.
Proof.
  induction ops as [|[|] ops IH]; intros s H; cbn [run_conn fold_left] in *.
  - simpl. lia.
  - fold (run_conn ops (apply_conn s Increment)).
    assert (E : active_connections (apply_conn s Increment) = active_connections s + 1)
      by reflexivity.
    rewrite IH; rewrite E; [|exact H].
    cbn [increments decrements]. lia.
  - destruct H as [Hpos H].
    fold (run_conn ops (apply_conn s Decrement)).
    assert (E : active_connections (apply_conn s Decrement) = active_connections s - 1).
    { cbn [apply_conn]. unfold decrement_connections.
      destruct (Z.gtb_spec (active_connections s) 0); [reflexivity | lia]. }
    rewrite IH; rewrite E; [|exact H].
    cbn [increments decrements]. lia.
Qed.

Lemma run_conn_lower_bound (ops : list conn_op) : forall s : Server,
  active_connections s + increments ops - decrements ops
  <= active_connections (run_conn ops s).
Proof.
  induction ops as [|o ops IH]; intros s; cbn [run_conn fold_left].
  - simpl. lia.
  - fold (run_conn ops (apply_conn s o)).
    specialize (IH (apply_conn s o)).
    destruct o; cbn [apply_conn increments decrements] in *.
    + assert (E : active_connections (increment_connections s) = active_connections s + 1)
        by reflexivity.
      lia.
    + assert (E : active_connections s - 1 <= active_connections (decrement_connections s)).
      { unfold decrement_connections.
        destruct (Z.gtb_spec (active_connections s) 0); simpl; lia. }
      lia.
Qed.

(** X1. When every [decrement_connections] of a history finds a request in
    flight (each completion follows its dispatch), the counter ends at its
    start value plus the increments minus the decrements: it counts the
    requests in flight. In any history it is at least that number, a
    decrement at 0 being lost. *)
Theorem connections_count_in_flight (s : Server) (ops : list conn_op) :
  (bracketed (active_connections s) ops ->
   active_connections (run_conn ops s)
   = active_connections s + increments ops - decrements ops) /\
  active_connections s + increments ops - decrements ops
  <= active_connections (run_conn ops s).
Proof.
  split; [apply run_conn_bracketed | apply run_conn_lower_bound].
Qed.

Lemma connections_count_in_flight_witness :
  active_connections
    (run_conn [Increment; Increment; Decrement; Increment; Decrement]
              (ServerOps.__init__ "a" 1)) = 0 + 3 - 2.
Proof.
  apply (proj1 (connections_count_in_flight (ServerOps.__init__ "a" 1)
                  [Increment; Increment; Decrement; Increment; Decrement])).
  simpl. lia.
Defined.

End ServerInFlight.

(** ** LoadBalancer: who can be selected *)

Section HealthyOnly.

Import ServerOps LoadBalancer Histories Samples.

Lemma healthy_from_elem (l : list Server) : forall (k p : nat),
  p ∈ healthy_from k l <-> (k <= p)%nat /\ healthy_at l (p - k).
Proof.
  induction l as [|s l IH]; intros k p; cbn [healthy_from].
  - split.
    + intros H. inversion H.
    + intros [_ (s & Hs & _)]. discriminate.
  - assert (Htail : p ∈ healthy_from (S k) l <-> (k < p)%nat /\ healthy_at (s :: l) (p - k)).
    { rewrite IH. unfold healthy_at. split.
      - intros [Hk (x & Hx & Hh)]. split; [lia|]. exists x. split; [|exact Hh].
        replace (p - k)%nat with (S (p - S k)) by lia. exact Hx.
      - intros [Hk (x & Hx & Hh)]. split; [lia|]. exists x. split; [|exact Hh].
        replace (p - k)%nat with (S (p - S k)) in Hx by lia. exact Hx. }
    destruct (healthy s) eqn:Hs.
    + rewrite elem_of_cons, Htail. split.
      * intros [-> | [Hk H]]; [|split; [lia | exact H]].
        split; [lia|]. rewrite Nat.sub_diag. exists s. split; [reflexivity | exact Hs].
      * intros [Hk H]. destruct (Nat.eq_dec p k) as [->|Hne]; [left; reflexivity|].
        right. split; [lia | exact H].
    + rewrite Htail. split.
      * intros [Hk H]. split; [lia | exact H].
      * intros [Hk H]. split; [|exact H].
        destruct (Nat.eq_dec p k) as [->|Hne]; [|lia].
        destruct H as (x & Hx & Hh). rewrite Nat.sub_diag in Hx.
        injection Hx as <-. congruence.
Qed.

Lemma healthy_from_increasing (l : list Server) : forall (k i j p q : nat),
  (i < j)%nat -> healthy_from k l !! i = Some p -> healthy_from k l !! j = Some q ->
  (p < q)%nat.
Proof.
  induction l as [|s l IH]; intros k i j p q Hij Hp Hq; cbn [healthy_from] in *.
  - discriminate.
  - destruct (healthy s).
    + destruct j as [|j]; [lia|]. cbn in Hq.
      destruct i as [|i]; cbn in Hp.
      * injection Hp as <-.
        assert (Hin : q ∈ healthy_from (S k) l) by (eapply list_elem_of_lookup_2; exact Hq).
        apply healthy_from_elem in Hin. lia.
      * eapply (IH (S k) i j); [lia | exact Hp | exact Hq].
    + eapply IH; eassumption.
Qed.

(** X2. The healthy list holds the positions of the healthy servers and no
    other, in stored order, each once. *)
Theorem healthy_list_is_the_healthy_servers (lb : LoadBalancer) :
  (forall p, p ∈ _get_healthy_server lb <-> healthy_at (servers lb) p) /\
  (forall i j p q, (i < j)%nat ->
     _get_healthy_server lb !! i = Some p -> _get_healthy_server lb !! j = Some q ->
     (p < q)%nat).
Proof.
  split.
  - intros p. unfold _get_healthy_server. rewrite healthy_from_elem, Nat.sub_0_r.
    split; [intros [_ H]; exact H | intros H; split; [lia | exact H]].
  - intros i j p q. apply healthy_from_increasing.
Qed.

Lemma getitem_elem {A} (l : list A) (i : Z) (x : A) : getitem l i = Ok x -> x ∈ l.
Proof.
  unfold getitem. destruct (_ && _); [|discriminate].
  destruct (l !! _) as [y|] eqn:Hy; [|discriminate].
  intros [= <-]. eapply list_elem_of_lookup_2. exact Hy.
Qed.

Lemma healthy_at_frame (l l' : list Server) (p : nat) :
  map frame l' = map frame l -> healthy_at l p -> healthy_at l' p.
Proof.
  intros Hf (s & Hs & Hh).
  assert (E : map frame l' !! p = Some (frame s)) by (rewrite Hf, lookup_map, Hs; reflexivity).
  rewrite lookup_map in E. destruct (l' !! p) as [s'|] eqn:Hs'; [|discriminate].
  assert (E' : frame s' = frame s)
    by (cbn [fmap option_fmap option_map] in E; congruence).
  exists s'. split; [exact Hs'|].
  change (healthy s') with (healthy (frame s')). rewrite E'. exact Hh.
Qed.

Lemma wrr_loop_best_healthy (idxs : list nat) : forall srvs best total best' t srvs',
  wrr_loop idxs srvs best total = (Ok (best', t), srvs') ->
  (forall b, best = Some b -> healthy_at srvs b) ->
  forall b, best' = Some b -> healthy_at srvs b.
Proof.
  induction idxs as [|i idxs IH]; intros srvs best total best' t srvs' Hloop Hbest b Hb;
    cbn [wrr_loop] in Hloop.
  - injection Hloop as <- _ _. apply Hbest, Hb.
  - destruct (srvs !! i) as [s|] eqn:Hi; [|eapply IH; eassumption].
    destruct (healthy s) eqn:Hh; cbn [negb] in Hloop; [|eapply IH; eassumption].
    destruct (as_int _) as [total'|e]; [|discriminate].
    assert (Hf : map frame (<[i := set_current_weight s (current_weight s + effective_weight s)]> srvs)
                 = map frame srvs)
      by (eapply map_insert_same; [exact Hi | reflexivity]).
    eapply healthy_at_frame; [symmetry; exact Hf|].
    eapply IH; [exact Hloop | | exact Hb].
    intros b0 Hb0. eapply healthy_at_frame; [exact Hf|].
    destruct best as [b1|].
    + destruct (_ >? _); injection Hb0 as <-.
      * exists s. split; assumption.
      * apply Hbest. reflexivity.
    + injection Hb0 as <-. exists s. split; assumption.
Qed.

Lemma least_loop_invariant (all : list Server) (l : list Server) : forall (i : nat) best,
  drop i all = l -> least_busy all i best ->
  least_busy all (length all) (least_loop i l all best).
Proof.
  induction l as [|s l IH]; intros i best Hdrop Hbest; cbn [least_loop].
  - assert (Hlen : (length all <= i)%nat).
    { apply (f_equal length) in Hdrop. rewrite length_drop in Hdrop. simpl in Hdrop. lia. }
    destruct best as [b|]; cbn [least_busy] in *.
    + destruct Hbest as (Hb & Hh & Hmin). split; [|split; [exact Hh|]].
      * destruct Hh as (x & Hx & _). eapply lookup_lt_Some. exact Hx.
      * intros j sj Hj. apply Hmin. lia.
    + intros j sj Hj. apply Hbest. lia.
  - assert (Hs : all !! i = Some s).
    { rewrite <- (Nat.add_0_r i), <- lookup_drop, Hdrop. reflexivity. }
    assert (Hdrop' : drop (S i) all = l).
    { rewrite (drop_S _ _ _ Hs) in Hdrop. injection Hdrop as Hdrop. exact Hdrop. }
    destruct (healthy s) eqn:Hh; cbn [negb]; apply IH; try exact Hdrop'.
    + destruct best as [b|]; cbn [least_busy] in *.
      * destruct Hbest as (Hb & Hhb & Hmin).
        destruct (Z.ltb_spec (active_connections s) (connections_at all b)) as [Hlt|Hge].
        -- split; [lia|]. split; [exists s; split; assumption|].
           unfold connections_at at 1 2. rewrite Hs.
           intros j sj Hj Hsj Hhj. destruct (Nat.eq_dec j i) as [->|Hne].
           ++ rewrite Hs in Hsj. injection Hsj as <-. lia.
           ++ destruct (Hmin j sj ltac:(lia) Hsj Hhj) as [Hle _]. lia.
        -- split; [lia|]. split; [exact Hhb|].
           intros j sj Hj Hsj Hhj. destruct (Nat.eq_dec j i) as [->|Hne].
           ++ rewrite Hs in Hsj. injection Hsj as <-. lia.
           ++ apply Hmin; [lia | assumption | assumption].
      * split; [lia|]. split; [exists s; split; assumption|].
        unfold connections_at. rewrite Hs.
        intros j sj Hj Hsj Hhj. destruct (Nat.eq_dec j i) as [->|Hne].
        -- rewrite Hs in Hsj. injection Hsj as <-. lia.
        -- rewrite (Hbest j sj ltac:(lia) Hsj) in Hhj. discriminate.
    + destruct best as [b|]; cbn [least_busy] in *.
      * destruct Hbest as (Hb & Hhb & Hmin). split; [lia|]. split; [exact Hhb|].
        intros j sj Hj Hsj Hhj. destruct (Nat.eq_dec j i) as [->|Hne].
        -- rewrite Hs in Hsj. injection Hsj as <-. congruence.
        -- apply Hmin; [lia | assumption | assumption].
      * intros j sj Hj Hsj. destruct (Nat.eq_dec j i) as [->|Hne].
        -- rewrite Hs in Hsj. injection Hsj as <-. exact Hh.
        -- apply (Hbest j sj); [lia | assumption].
Qed.

Lemma least_connections_busy (lb : LoadBalancer) :
  least_busy (servers lb) (length (servers lb)) (_least_connections lb).
Proof.
  unfold _least_connections. apply least_loop_invariant.
  - apply drop_0.
  - intros j s Hj. lia.
Qed.

(** X3. The least-connections strategy returns none when no server is
    healthy, and otherwise the first healthy server (in stored order) whose
    [active_connections] is minimal among the healthy servers: a later server
    with the same count does not replace it. *)
Theorem least_connections_selection (lb : LoadBalancer) :
  match _least_connections lb with
  | None => all_unhealthy (servers lb)
  | Some b =>
      healthy_at (servers lb) b /\
      (forall j s, servers lb !! j = Some s -> healthy s = true ->
         connections_at (servers lb) b <= active_connections s /\
         ((j < b)%nat -> connections_at (servers lb) b < active_connections s))
  end.
Proof.
  pose proof (least_connections_busy lb) as H.
  destruct (_least_connections lb) as [b|]; cbn [least_busy] in H.
  - destruct H as (_ & Hh & Hmin). split; [exact Hh|].
    intros j s Hj. apply Hmin; [eapply lookup_lt_Some|]; exact Hj.
  - unfold all_unhealthy. apply Forall_forall. intros s Hin.
    apply list_elem_of_lookup in Hin as (j & Hj).
    eapply H; [eapply lookup_lt_Some|]; exact Hj.
Qed.

Lemma healthy_member (lb : LoadBalancer) (p : nat) :
  p ∈ _get_healthy_server lb -> healthy_at (servers lb) p.
Proof.
  unfold _get_healthy_server. rewrite healthy_from_elem, Nat.sub_0_r. tauto.
Qed.

Lemma weighted_scan_elem (hs : list nat) (rv : Z) (cw : list Z) : forall (i s : nat),
  weighted_scan hs rv i cw = Ok s -> s ∈ hs.
Proof.
  induction cw as [|c cw IH]; intros i s; cbn [weighted_scan].
  - apply getitem_elem.
  - destruct (rv <? c); [apply getitem_elem | apply IH].
Qed.

Lemma round_robin_member (lb : LoadBalancer) (p : nat) :
  fst (_round_robin lb) = Ok (Some p) -> p ∈ _get_healthy_server lb.
Proof.
  unfold _round_robin. destruct (_get_healthy_server lb) as [|h hs]; [discriminate|].
  destruct (getitem _ _) as [s|e] eqn:Hg; cbn [fst]; [|discriminate].
  intros [= <-]. eapply getitem_elem. exact Hg.
Qed.

Lemma random_member (lb : LoadBalancer) (u : Z) (p : nat) :
  _random lb u = Ok (Some p) -> p ∈ _get_healthy_server lb.
Proof.
  unfold _random. destruct (_get_healthy_server lb) as [|h hs]; [discriminate|].
  destruct (randint _ _ _) as [r|e]; cbn [mbind exc_bind]; [|discriminate].
  destruct (getitem _ _) as [s|e] eqn:Hg; cbn [mbind exc_bind mret exc_ret]; [|discriminate].
  intros [= <-]. eapply getitem_elem. exact Hg.
Qed.

Lemma weighted_random_member (lb : LoadBalancer) (u : Z) (p : nat) :
  _weighted_random lb u = Ok (Some p) -> p ∈ _get_healthy_server lb.
Proof.
  unfold _weighted_random. destruct (_get_healthy_server lb) as [|h hs]; [discriminate|].
  destruct (randint _ _ _) as [r|e]; cbn [mbind exc_bind]; [|discriminate].
  destruct (as_int _) as [rv|e]; cbn [mbind exc_bind]; [|discriminate].
  destruct (weighted_scan _ _ _ _) as [s|e] eqn:Hg; cbn [mbind exc_bind mret exc_ret];
    [|discriminate].
  intros [= <-]. eapply weighted_scan_elem. exact Hg.
Qed.

Lemma weighted_round_robin_member (lb : LoadBalancer) (p : nat) :
  fst (_weighted_round_robin lb) = Ok (Some p) -> healthy_at (servers lb) p.
Proof.
  unfold _weighted_round_robin.
  destruct (wrr_loop _ _ _ _) as [[[[b|] t]|e] srvs] eqn:Hloop; cbn [fst]; try discriminate.
  intros [= <-].
  eapply (wrr_loop_best_healthy _ _ None); [exact Hloop | discriminate | reflexivity].
Qed.

Lemma random_member_exists (lb : LoadBalancer) (u : Z) :
  _get_healthy_server lb <> [] -> exists p, _random lb u = Ok (Some p).
Proof.
  intros Hne.
  assert (Hlen : 0 < Z.of_nat (length (_get_healthy_server lb))).
  { destruct (_get_healthy_server lb); [congruence | simpl; lia]. }
  destruct (randint 0 (Z.of_nat (length (_get_healthy_server lb)) - 1) u) as [r|e] eqn:Hr.
  - pose proof (randint_range _ _ _ _ Hr) as Hrange.
    destruct (lookup_lt_is_Some_2 (_get_healthy_server lb) (Z.to_nat r)) as [p Hp]; [lia|].
    exists p. unfold _random.
    destruct (_get_healthy_server lb) as [|h hs] eqn:E; [congruence|].
    rewrite Hr. cbn [mbind exc_bind].
    rewrite (getitem_lookup _ _ p); [reflexivity | lia | exact Hp].
  - unfold randint in Hr.
    destruct (Z.ltb_spec (Z.of_nat (length (_get_healthy_server lb)) - 1) 0);
      [lia | discriminate].
Qed.

(** X4. Under each of the strategies 0..4, in every state of the balancer
    (stale derived state included) and whatever the generator draws, a server
    that [get_next_server] returns is healthy: a server marked unhealthy is
    never selected. *)
Theorem only_healthy_servers_are_selected (lb : LoadBalancer) (u : Z) (p : nat) :
  0 <= strategy lb <= 4 ->
  fst (get_next_server lb u) = Ok (Some p) ->
  healthy_at (servers lb) p.
Proof.
  intros Hst. unfold get_next_server.
  destruct (Z.eqb_spec (strategy lb) 0) as [_|?].
  { intros H. apply healthy_member, round_robin_member, H. }
  destruct (Z.eqb_spec (strategy lb) 1) as [_|?].
  { apply weighted_round_robin_member. }
  destruct (Z.eqb_spec (strategy lb) 2) as [_|?].
  { cbn [fst]. intros H. eapply healthy_member, random_member, H. }
  destruct (Z.eqb_spec (strategy lb) 3) as [_|?].
  { cbn [fst]. intros H. eapply healthy_member, weighted_random_member, H. }
  destruct (Z.eqb_spec (strategy lb) 4) as [_|?]; [|lia].
  cbn [fst]. intros [= H].
  pose proof (least_connections_busy lb) as Hb. rewrite H in Hb.
  destruct Hb as (_ & Hh & _). exact Hh.
Qed.

Lemma only_healthy_servers_are_selected_witness :
  healthy_at (servers weighted_pair_stale) 0.
Proof.
  apply (only_healthy_servers_are_selected weighted_pair_stale 2 0).
  - simpl. lia.
  - reflexivity.
Defined.

(** X5. On a non-empty healthy list the random strategy returns a healthy
    server whatever the generator yields, never none and never an error; and
    the healthy server at index [i] is what it returns when the draw is
    [i]. *)
Theorem random_selection (lb : LoadBalancer) :
  _get_healthy_server lb <> [] ->
  (forall u, exists p, _random lb u = Ok (Some p) /\ p ∈ _get_healthy_server lb) /\
  (forall i p, _get_healthy_server lb !! i = Some p ->
     _random lb (Z.of_nat i) = Ok (Some p)).
Proof.
  intros Hne.
  assert (Hdraw : forall u r, randint 0 (Z.of_nat (length (_get_healthy_server lb)) - 1) u = Ok r ->
            exists p, _get_healthy_server lb !! Z.to_nat r = Some p /\
                      _random lb u = Ok (Some p)).
  { intros u r Hr. pose proof (randint_range _ _ _ _ Hr) as Hrange.
    destruct (lookup_lt_is_Some_2 (_get_healthy_server lb) (Z.to_nat r)) as [p Hp]; [lia|].
    exists p. split; [exact Hp|].
    unfold _random. destruct (_get_healthy_server lb) as [|h hs] eqn:E; [congruence|].
    rewrite Hr. cbn [mbind exc_bind].
    rewrite (getitem_lookup _ _ p); [reflexivity | lia | exact Hp]. }
  assert (Hlen : 0 < Z.of_nat (length (_get_healthy_server lb))).
  { destruct (_get_healthy_server lb); [congruence | simpl; lia]. }
  split.
  - intros u.
    destruct (randint 0 (Z.of_nat (length (_get_healthy_server lb)) - 1) u) as [r|e] eqn:Hr.
    + destruct (Hdraw u r Hr) as (p & Hp & Hcall). exists p. split; [exact Hcall|].
      eapply list_elem_of_lookup_2. exact Hp.
    + unfold randint in Hr. destruct (Z.ltb_spec (Z.of_nat (length (_get_healthy_server lb)) - 1) 0);
        [lia | discriminate].
  - intros i p Hp. pose proof (lookup_lt_Some _ _ _ Hp) as Hlt.
    destruct (Hdraw (Z.of_nat i) (Z.of_nat i)) as (q & Hq & Hcall).
    + apply randint_self. lia.
    + rewrite Nat2Z.id, Hp in Hq. injection Hq as <-. exact Hcall.
Qed.

Lemma random_selection_witness :
  (exists p, _random rr_gap 12345 = Ok (Some p) /\ p ∈ _get_healthy_server rr_gap) /\
  _random rr_gap (Z.of_nat 1) = Ok (Some 2%nat).
Proof.
  assert (H : _get_healthy_server rr_gap <> []) by discriminate.
  split.
  - apply (proj1 (random_selection rr_gap H)).
  - apply (proj2 (random_selection rr_gap H)). reflexivity.
Defined.

End HealthyOnly.

(** ** LoadBalancer: the derived state *)

Section DerivedState.

Import ServerOps LoadBalancer Histories Samples.

Lemma total_weight_loop_fit (l : list Server) : forall total : Z,
  (forall k : nat, in_int (total + weight_total (take k l)) = true) ->
  total_weight_loop l total = Ok (total + weight_total l).
Proof.
  induction l as [|s l IH]; intros total Hfit; cbn [total_weight_loop weight_total].
  - rewrite Z.add_0_r. reflexivity.
  - destruct (healthy s) eqn:Hh.
    + pose proof (Hfit 1%nat) as H1. cbn [take weight_total] in H1. rewrite Hh, take_0 in H1.
      cbn [weight_total] in H1. rewrite Z.add_0_r in H1.
      apply in_int_range in H1. rewrite as_int_ok by exact H1. cbn [mbind exc_bind].
      rewrite IH; [f_equal; lia|].
      intros k. specialize (Hfit (S k)). cbn [take weight_total] in Hfit. rewrite Hh in Hfit.
      rewrite <- Hfit. f_equal. lia.
    + rewrite IH; [f_equal; lia|].
      intros k. specialize (Hfit (S k)). cbn [take weight_total] in Hfit. rewrite Hh in Hfit.
      exact Hfit.
Qed.

Lemma total_weight_loop_ok (l : list Server) : forall total t : Z,
  total_weight_loop l total = Ok t ->
  in_int total = true ->
  forall k : nat, in_int (total + weight_total (take k l)) = true.
Proof.
  induction l as [|s l IH]; intros total t Hloop Hin k; cbn [total_weight_loop] in Hloop.
  - rewrite take_nil. cbn [weight_total]. rewrite Z.add_0_r. exact Hin.
  - destruct k as [|k]; [rewrite take_0; cbn [weight_total]; rewrite Z.add_0_r; exact Hin|].
    cbn [take weight_total]. destruct (healthy s).
    + unfold as_int in Hloop. destruct (in_int (total + weight s)) eqn:Hw;
        cbn [mbind exc_bind] in Hloop; [|discriminate].
      rewrite Z.add_assoc. eapply IH; eassumption.
    + rewrite Z.add_0_l. eapply IH; eassumption.
Qed.

Lemma cumulative_weights_loop_fit (l : list Server) : forall (c : Z) (acc : list Z),
  (forall k : nat, in_int (c + weight_total (take k l)) = true) ->
  cumulative_weights_loop l c acc = Ok (acc ++ weight_sums c l).
Proof.
  induction l as [|s l IH]; intros c acc Hfit; cbn [cumulative_weights_loop weight_sums].
  - rewrite app_nil_r. reflexivity.
  - destruct (healthy s) eqn:Hh.
    + pose proof (Hfit 1%nat) as H1. cbn [take weight_total] in H1. rewrite Hh, take_0 in H1.
      cbn [weight_total] in H1. rewrite Z.add_0_r in H1.
      apply in_int_range in H1. rewrite as_int_ok by exact H1. cbn [mbind exc_bind].
      rewrite IH; [rewrite <- app_assoc; reflexivity|].
      intros k. specialize (Hfit (S k)). cbn [take weight_total] in Hfit. rewrite Hh in Hfit.
      rewrite <- Hfit. f_equal. lia.
    + apply IH.
      intros k. specialize (Hfit (S k)). cbn [take weight_total] in Hfit. rewrite Hh in Hfit.
      exact Hfit.
Qed.

Lemma total_weight_loop_overflow (l : list Server) : forall (total : Z) (k : nat),
  in_int total = true ->
  in_int (total + weight_total (take k l)) = false ->
  total_weight_loop l total = Raise OverflowError.
Proof.
  induction l as [|s l IH]; intros total k Hin Hk; cbn [total_weight_loop].
  - rewrite take_nil in Hk. cbn [weight_total] in Hk. rewrite Z.add_0_r in Hk. congruence.
  - destruct k as [|k].
    { rewrite take_0 in Hk. cbn [weight_total] in Hk. rewrite Z.add_0_r in Hk. congruence. }
    cbn [take weight_total] in Hk. destruct (healthy s).
    + unfold as_int. destruct (in_int (total + weight s)) eqn:Hw; cbn [mbind exc_bind];
        [|reflexivity].
      apply (IH _ k Hw). rewrite <- Hk. f_equal. lia.
    + apply (IH _ k Hin). exact Hk.
Qed.

Lemma cumulative_weights_loop_overflow (l : list Server) :
  forall (c : Z) (acc : list Z) (k : nat),
  in_int c = true ->
  in_int (c + weight_total (take k l)) = false ->
  cumulative_weights_loop l c acc = Raise OverflowError.
Proof.
  induction l as [|s l IH]; intros c acc k Hin Hk; cbn [cumulative_weights_loop].
  - rewrite take_nil in Hk. cbn [weight_total] in Hk. rewrite Z.add_0_r in Hk. congruence.
  - destruct k as [|k].
    { rewrite take_0 in Hk. cbn [weight_total] in Hk. rewrite Z.add_0_r in Hk. congruence. }
    cbn [take weight_total] in Hk. destruct (healthy s).
    + unfold as_int. destruct (in_int (c + weight s)) eqn:Hw; cbn [mbind exc_bind];
        [|reflexivity].
      apply (IH _ _ k Hw). rewrite <- Hk. f_equal. lia.
    + apply (IH _ _ k Hin). exact Hk.
Qed.

Lemma weight_sums_length (l : list Server) : forall (acc : Z) (k : nat),
  length (weight_sums acc l) = length (healthy_from k l).
Proof.
  induction l as [|s l IH]; intros acc k; cbn [weight_sums healthy_from]; [reflexivity|].
  destruct (healthy s); cbn [length]; [f_equal|]; apply IH.
Qed.

Lemma weight_sums_last (l : list Server) : forall (acc : Z) (k : nat),
  healthy_from k l <> [] ->
  last (weight_sums acc l) = Some (acc + weight_total l).
Proof.
  induction l as [|s l IH]; intros acc k Hne; cbn [weight_sums healthy_from weight_total] in *.
  - congruence.
  - destruct (healthy s).
    + destruct (healthy_from (S k) l) as [|h hs] eqn:E.
      * pose proof (weight_sums_length l (acc + weight s) (S k)) as Hlen.
        rewrite E in Hlen. destruct (weight_sums (acc + weight s) l); [|discriminate].
        assert (Hz : weight_total l = 0).
        { clear -E. revert E. generalize (S k). induction l as [|x l IH]; intros n E;
            cbn [healthy_from weight_total] in *; [reflexivity|].
          destruct (healthy x); [discriminate|]. rewrite (IH (S n) E). reflexivity. }
        cbn. rewrite Hz. f_equal. lia.
      * rewrite last_cons. rewrite (IH (acc + weight s) (S k)) by (rewrite E; discriminate).
        f_equal. lia.
    + rewrite (IH acc (S k) Hne). reflexivity.
Qed.

(** X6. The two loops that compute the derived state succeed or fail
    together. While the running sum of the healthy weights stays a C [int],
    the total is the sum of [weight] over the healthy servers and the
    cumulative list holds its running values: one entry per healthy server,
    the last one equal to the total. As soon as a running sum leaves the
    range, both raise [OverflowError]. *)
Theorem derived_state_computation (srvs : list Server) :
  (weights_fit srvs ->
   _calculate_total_weight srvs = Ok (weight_total srvs) /\
   _calculate_cumulative_weights srvs = Ok (weight_sums 0 srvs)) /\
  ((exists k : nat, in_int (weight_total (take k srvs)) = false) ->
   _calculate_total_weight srvs = Raise OverflowError /\
   _calculate_cumulative_weights srvs = Raise OverflowError) /\
  length (weight_sums 0 srvs) = length (healthy_from 0 srvs) /\
  (healthy_from 0 srvs <> [] -> last (weight_sums 0 srvs) = Some (weight_total srvs)).
Proof.
  split; [|split; [|split]].
  - intros Hfit. unfold _calculate_total_weight, _calculate_cumulative_weights. split.
    + rewrite total_weight_loop_fit; [reflexivity | exact Hfit].
    + rewrite cumulative_weights_loop_fit; [reflexivity | exact Hfit].
  - intros [k Hk]. unfold _calculate_total_weight, _calculate_cumulative_weights. split.
    + eapply total_weight_loop_overflow; [reflexivity | exact Hk].
    + eapply cumulative_weights_loop_overflow; [reflexivity | exact Hk].
  - apply weight_sums_length.
  - intros Hne. rewrite (weight_sums_last srvs 0 0 Hne). reflexivity.
Qed.

Lemma weighted_pair_weights_fit : weights_fit (servers weighted_pair).
Proof. intros k. destruct k as [|[|[|k]]]; reflexivity. Defined.

Lemma derived_state_computation_witness :
  (_calculate_total_weight (servers weighted_pair) = Ok 8 /\
   _calculate_cumulative_weights (servers weighted_pair) = Ok [5; 8]) /\
  (_calculate_total_weight (servers heavy_pair) = Raise OverflowError /\
   _calculate_cumulative_weights (servers heavy_pair) = Raise OverflowError) /\
  last (weight_sums 0 (servers weighted_pair_stale)) = Some 5.
Proof.
  split; [|split].
  - apply (proj1 (derived_state_computation (servers weighted_pair))).
    exact weighted_pair_weights_fit.
  - apply (proj1 (proj2 (derived_state_computation (servers heavy_pair)))).
    exists 2%nat. reflexivity.
  - apply (proj2 (proj2 (proj2 (derived_state_computation (servers weighted_pair_stale))))).
    discriminate.
Defined.

Lemma total_weight_loop_raises (l : list Server) : forall (total : Z) (e : exn),
  total_weight_loop l total = Raise e -> e = OverflowError.
Proof.
  induction l as [|s l IH]; intros total e; cbn [total_weight_loop]; [discriminate|].
  destruct (healthy s); [|apply IH].
  unfold as_int. destruct (in_int _); cbn [mbind exc_bind]; [apply IH|].
  intros [= <-]. reflexivity.
Qed.

Lemma calculate_total_weight_ok (srvs : list Server) (t : Z) :
  _calculate_total_weight srvs = Ok t -> weights_fit srvs.
Proof.
  intros H k. apply (total_weight_loop_ok srvs 0 t H). reflexivity.
Qed.

Lemma refresh_weight_fit (lb : LoadBalancer) :
  weights_fit (servers lb) -> refresh_weight lb = (Ok tt, refreshed lb).
Proof.
  intros Hfit. unfold refresh_weight, _calculate_total_weight, _calculate_cumulative_weights.
  rewrite total_weight_loop_fit by exact Hfit.
  rewrite cumulative_weights_loop_fit by exact Hfit. reflexivity.
Qed.

Lemma refresh_weight_cases (lb : LoadBalancer) :
  refresh_weight lb = (Ok tt, refreshed lb) \/
  refresh_weight lb = (Raise OverflowError, lb).
Proof.
  destruct (_calculate_total_weight (servers lb)) as [t|e] eqn:Ht.
  - left. apply refresh_weight_fit. eapply calculate_total_weight_ok. exact Ht.
  - right. unfold refresh_weight. rewrite Ht.
    apply total_weight_loop_raises in Ht. subst e. reflexivity.
Qed.

Lemma init_fields (srvs : list Server) (strat : Z) (lb : LoadBalancer) :
  LoadBalancer.__init__ srvs strat = Ok lb ->
  lb = {| servers := srvs; current_index := 0; total_weight := weight_total srvs;
          cumulative_weights := weight_sums 0 srvs; strategy := strat |} /\
  weights_fit srvs /\ in_int strat = true.
Proof.
  unfold LoadBalancer.__init__. intros H.
  destruct (_calculate_total_weight srvs) as [t|e] eqn:Ht; cbn [mbind exc_bind] in H;
    [|discriminate].
  pose proof (calculate_total_weight_ok srvs t Ht) as Hfit.
  unfold as_int in H. destruct (in_int strat) eqn:Hs; cbn [mbind exc_bind] in H;
    [|discriminate].
  unfold _calculate_total_weight in Ht. rewrite total_weight_loop_fit in Ht by exact Hfit.
  unfold _calculate_cumulative_weights in H.
  rewrite cumulative_weights_loop_fit in H by exact Hfit.
  cbn [mbind exc_bind mret exc_ret app] in H.
  injection Ht as <-. injection H as <-. repeat split. exact Hfit.
Qed.

(** X7. [refresh_weight] is all or nothing: it replaces [total_weight] and
    [cumulative_weights] by the values recomputed from the servers, or, when
    a running sum of healthy weights leaves the C [int] range, raises
    [OverflowError] and leaves the balancer exactly as it was. Refreshing a
    refreshed balancer changes nothing. *)
Theorem refresh_weight_all_or_nothing (lb : LoadBalancer) :
  (refresh_weight lb = (Ok tt, refreshed lb) \/
   refresh_weight lb = (Raise OverflowError, lb)) /\
  (weights_fit (servers lb) -> refresh_weight lb = (Ok tt, refreshed lb)) /\
  ((exists k : nat, in_int (weight_total (take k (servers lb))) = false) ->
   refresh_weight lb = (Raise OverflowError, lb)) /\
  (forall lb', refresh_weight lb = (Ok tt, lb') ->
     fresh lb' /\ refresh_weight lb' = (Ok tt, lb')).
Proof.
  split; [apply refresh_weight_cases|]. split; [apply refresh_weight_fit|]. split.
  - intros [k Hk]. unfold refresh_weight, _calculate_total_weight.
    rewrite (total_weight_loop_overflow (servers lb) 0 k eq_refl Hk). reflexivity.
  - intros lb' H. destruct (refresh_weight_cases lb) as [E|E]; rewrite E in H; [|discriminate].
    injection H as <-. split; [split; reflexivity|].
    destruct (_calculate_total_weight (servers lb)) as [t|e] eqn:Ht.
    + apply (refresh_weight_fit (refreshed lb)).
      eapply calculate_total_weight_ok. exact Ht.
    + unfold refresh_weight in E. rewrite Ht in E. discriminate.
Qed.

Lemma refresh_weight_all_or_nothing_witness :
  refresh_weight weighted_pair_stale
  = (Ok tt, set_healthy_refreshed_pair) /\
  refresh_weight heavy_pair = (Raise OverflowError, heavy_pair).
Proof.
  split.
  - apply (proj1 (proj2 (refresh_weight_all_or_nothing weighted_pair_stale))).
    intros k. destruct k as [|[|[|k]]]; reflexivity.
  - apply (proj1 (proj2 (proj2 (refresh_weight_all_or_nothing heavy_pair)))).
    exists 2%nat. reflexivity.
Defined.

(** X8. [LoadBalancer(servers, strategy)] succeeds exactly when the strategy
    and every running sum of the healthy weights fit a C [int], and raises
    [OverflowError] otherwise. The balancer it builds has the cursor at 0, the
    derived state of its servers, and is left unchanged by a refresh. *)
Theorem load_balancer_construction (srvs : list Server) (strat : Z) :
  (weights_fit srvs -> in_int strat = true ->
   LoadBalancer.__init__ srvs strat
   = Ok {| servers := srvs; current_index := 0; total_weight := weight_total srvs;
           cumulative_weights := weight_sums 0 srvs; strategy := strat |}) /\
  ((exists k : nat, in_int (weight_total (take k srvs)) = false) \/ in_int strat = false ->
   LoadBalancer.__init__ srvs strat = Raise OverflowError) /\
  (forall lb, LoadBalancer.__init__ srvs strat = Ok lb ->
     current_index lb = 0 /\ fresh lb /\ refresh_weight lb = (Ok tt, lb)).
Proof.
  split; [|split].
  - intros Hfit Hs. unfold LoadBalancer.__init__, _calculate_total_weight,
      _calculate_cumulative_weights, as_int.
    rewrite total_weight_loop_fit by exact Hfit.
    rewrite cumulative_weights_loop_fit by exact Hfit. rewrite Hs. reflexivity.
  - intros H. unfold LoadBalancer.__init__.
    destruct (_calculate_total_weight srvs) as [t|e] eqn:Ht; cbn [mbind exc_bind].
    + destruct H as [[k Hk]|Hs].
      * pose proof (calculate_total_weight_ok srvs t Ht k). congruence.
      * unfold as_int. rewrite Hs. reflexivity.
    + apply total_weight_loop_raises in Ht. subst e. reflexivity.
  - intros lb H. destruct (init_fields srvs strat lb H) as (-> & Hfit & _).
    split; [reflexivity|]. split; [split; reflexivity|].
    apply (refresh_weight_fit
             {| servers := srvs; current_index := 0; total_weight := weight_total srvs;
                cumulative_weights := weight_sums 0 srvs; strategy := strat |}).
    exact Hfit.
Qed.

Lemma load_balancer_construction_witness :
  LoadBalancer.__init__ (servers weighted_pair) 3 = Ok weighted_pair /\
  LoadBalancer.__init__ (servers weighted_pair) (2 ^ 31) = Raise OverflowError /\
  refresh_weight weighted_pair = (Ok tt, weighted_pair).
Proof.
  destruct (load_balancer_construction (servers weighted_pair) 3) as (Hok & _ & Hfresh).
  split; [|split].
  - apply Hok; [exact weighted_pair_weights_fit | reflexivity].
  - apply (proj1 (proj2 (load_balancer_construction (servers weighted_pair) (2 ^ 31)))).
    right. reflexivity.
  - apply Hfresh. reflexivity.
Defined.

Lemma weights_ext (l : list Server) : forall l' : list Server,
  map (fun s => (healthy s, weight s)) l' = map (fun s => (healthy s, weight s)) l ->
  weight_total l' = weight_total l /\ forall acc, weight_sums acc l' = weight_sums acc l.
Proof.
  induction l as [|s l IH]; intros [|s' l'] H; try discriminate; [split; reflexivity|].
  cbn [map] in H. injection H as Hh Hw H. destruct (IH l' H) as [Ht Hs].
  cbn [weight_total weight_sums]. rewrite Hh, Hw, Ht. split; [reflexivity|].
  intros acc. rewrite !Hs. reflexivity.
Qed.

Lemma weights_of_frame (l l' : list Server) :
  map frame l' = map frame l ->
  map (fun s => (healthy s, weight s)) l' = map (fun s => (healthy s, weight s)) l.
Proof.
  intros H.
  assert (E : forall k : list Server,
             map (fun s => (healthy s, weight s)) k
             = map (fun s => (healthy s, weight s)) (map frame k)).
  { intros k. rewrite map_map. reflexivity. }
  rewrite (E l'), (E l), H. reflexivity.
Qed.

Lemma get_next_server_derived (lb : LoadBalancer) (u : Z) :
  total_weight (snd (get_next_server lb u)) = total_weight lb /\
  cumulative_weights (snd (get_next_server lb u)) = cumulative_weights lb.
Proof.
  unfold get_next_server.
  destruct (strategy lb =? 0).
  { unfold _round_robin. destruct (_get_healthy_server lb); [split; reflexivity|].
    destruct (getitem _ _); split; reflexivity. }
  destruct (strategy lb =? 1).
  { unfold _weighted_round_robin.
    destruct (wrr_loop _ _ _ _) as [[[[b|] t]|e] srvs]; split; reflexivity. }
  destruct (strategy lb =? 2); [split; reflexivity|].
  destruct (strategy lb =? 3); [split; reflexivity|].
  destruct (strategy lb =? 4); [split; reflexivity|].
  destruct (servers lb); split; reflexivity.
Qed.

Lemma step_weights (lb : LoadBalancer) (o : op) :
  (forall i status, o <> OpSetHealthy i status) ->
  map (fun s => (healthy s, weight s)) (servers (step lb o))
  = map (fun s => (healthy s, weight s)) (servers lb).
Proof.
  intros Hno. destruct o as [i|i|i status|u|]; cbn [step on_server set_servers servers].
  - apply map_alter_same. reflexivity.
  - apply map_alter_same. intros s. unfold decrement_connections.
    destruct (active_connections s >? 0); reflexivity.
  - exfalso. eapply Hno. reflexivity.
  - apply weights_of_frame, get_next_server_frame.
  - rewrite refresh_weight_servers. reflexivity.
Qed.

(** X9. The derived state is written by [refresh_weight] alone, and only a
    change of health can make it stale: a balancer whose [total_weight] and
    [cumulative_weights] agree with its servers still has them agree after a
    selection under any strategy, after an increment or decrement of a
    connection counter, and after a refresh, successful or not. *)
Theorem derived_state_stays_fresh (lb : LoadBalancer) (o : op) :
  (o <> OpRefresh ->
   total_weight (step lb o) = total_weight lb /\
   cumulative_weights (step lb o) = cumulative_weights lb) /\
  ((forall i status, o <> OpSetHealthy i status) -> fresh lb -> fresh (step lb o)).
Proof.
  split.
  - intros Hno. destruct o as [i|i|i status|u|]; try (split; reflexivity).
    + apply get_next_server_derived.
    + congruence.
  - intros Hno [Ht Hc].
    destruct (weights_ext (servers lb) (servers (step lb o)) (step_weights lb o Hno))
      as [Et Es].
    destruct o as [i|i|i status|u|].
    + split; [rewrite Et; exact Ht | rewrite Es; exact Hc].
    + split; [rewrite Et; exact Ht | rewrite Es; exact Hc].
    + exfalso. eapply Hno. reflexivity.
    + destruct (get_next_server_derived lb u) as [Dt Dc].
      split; cbn [step] in *; [rewrite Dt, Et; exact Ht | rewrite Dc, Es; exact Hc].
    + cbn [step]. destruct (refresh_weight_cases lb) as [-> | ->]; cbn [snd].
      * split; reflexivity.
      * split; assumption.
Qed.

Lemma derived_state_stays_fresh_witness :
  fresh (step weighted_pair (OpNextServer 6)) /\
  total_weight (step weighted_pair (OpSetHealthy 1 false)) = 8.
Proof.
  split.
  - apply (proj2 (derived_state_stays_fresh weighted_pair (OpNextServer 6))).
    + discriminate.
    + split; reflexivity.
  - apply (proj1 (derived_state_stays_fresh weighted_pair (OpSetHealthy 1 false))).
    discriminate.
Defined.

Lemma weight_total_app (l k : list Server) :
  weight_total (l ++ k) = weight_total l + weight_total k.
Proof. induction l as [|s l IH]; cbn [app weight_total]; [reflexivity | rewrite IH; lia]. Qed.

Lemma weight_total_nonneg (l : list Server) :
  Forall (fun s => healthy s = true -> 0 <= weight s) l -> 0 <= weight_total l.
Proof.
  induction 1 as [|s l Hs _ IH]; cbn [weight_total]; [lia|].
  destruct (healthy s); [specialize (Hs eq_refl)|]; lia.
Qed.

Lemma scan_position (l : list Server) : forall (acc : Z) (k p : nat) (s : Server) (d : Z),
  Forall (fun s => healthy s = true -> 0 <= weight s) l ->
  l !! p = Some s -> healthy s = true ->
  acc + weight_total (take p l) <= d < acc + weight_total (take p l) + weight s ->
  exists i, first_above d (weight_sums acc l) = Some i /\
            healthy_from k l !! i = Some (k + p)%nat.
Proof.
  induction l as [|x l IH]; intros acc k p s d Hpos Hp Hh Hd; [discriminate|].
  inversion Hpos as [|? ? Hx Hpos']; subst.
  destruct p as [|p]; cbn [take weight_total weight_sums healthy_from] in *.
  - injection Hp as ->. rewrite Hh. exists 0%nat.
    cbn [first_above]. destruct (Z.ltb_spec d (acc + weight s)); [|lia].
    split; [reflexivity|]. rewrite Nat.add_0_r. reflexivity.
  - pose proof (weight_total_nonneg (take p l) (Forall_take _ _ _ Hpos')) as Hnn.
    destruct (healthy x) eqn:Hhx.
    + specialize (Hx eq_refl).
      destruct (IH (acc + weight x) (S k) p s d Hpos' Hp Hh ltac:(lia)) as (i & Hi & Hl).
      exists (S i). cbn [first_above].
      destruct (Z.ltb_spec d (acc + weight x)); [lia|].
      rewrite Hi. split; [reflexivity|].
      replace (k + S p)%nat with (S k + p)%nat by lia. exact Hl.
    + destruct (IH acc (S k) p s d Hpos' Hp Hh ltac:(lia)) as (i & Hi & Hl).
      exists i. split; [exact Hi|]. rewrite Hl. f_equal. lia.
Qed.

(** X10. With fresh derived state and no negative weight among the healthy
    servers, the weighted random strategy selects a healthy server for exactly
    as many draws as its weight: the server at position [p] is returned for
    every draw from the sum of the healthy weights before it up to, but not
    including, that sum plus its own weight. *)
Theorem weighted_random_is_proportional (lb : LoadBalancer) (p : nat) (s : Server) (d : Z) :
  fresh lb ->
  in_int (total_weight lb) = true ->
  Forall (fun s => healthy s = true -> 0 <= weight s) (servers lb) ->
  servers lb !! p = Some s -> healthy s = true ->
  weight_total (take p (servers lb)) <= d
    < weight_total (take p (servers lb)) + weight s ->
  _weighted_random lb d = Ok (Some p).
Proof.
  intros [Ht Hc] Hin Hpos Hp Hh Hd.
  assert (Hsplit : weight_total (servers lb)
                   = weight_total (take p (servers lb)) + weight s
                     + weight_total (drop (S p) (servers lb))).
  { rewrite <- (take_drop_middle _ _ _ Hp) at 1.
    rewrite weight_total_app. cbn [weight_total]. rewrite Hh. lia. }
  pose proof (weight_total_nonneg _ (Forall_take _ p _ Hpos)) as Hlo.
  pose proof (weight_total_nonneg _ (Forall_drop _ (S p) _ Hpos)) as Hhi.
  destruct (scan_position (servers lb) 0 0 p s d Hpos Hp Hh ltac:(lia)) as (i & Hi & Hl).
  apply in_int_range in Hin.
  assert (Hdraw : randint 0 (wrap_int (total_weight lb - 1)) d = Ok d).
  { rewrite wrap_int_id by (unfold INT_MIN, INT_MAX in *; lia).
    apply randint_self. lia. }
  rewrite (weighted_random_drawn lb d d).
  - rewrite Hc, Hi. unfold _get_healthy_server. rewrite Hl. reflexivity.
  - unfold _get_healthy_server. intros E. rewrite E in Hl. discriminate.
  - exact Hdraw.
Qed.

Lemma weighted_random_is_proportional_witness :
  _weighted_random weighted_pair 7 = Ok (Some 1%nat).
Proof.
  apply (weighted_random_is_proportional weighted_pair 1 (ServerOps.__init__ "b" 3) 7).
  - split; reflexivity.
  - reflexivity.
  - repeat constructor; simpl; lia.
  - reflexivity.
  - reflexivity.
  - simpl. lia.
Defined.

(** X11. With a healthy server and a stored total weight that is zero or
    negative (every healthy weight 0, or a balancer built while all servers
    were down and not refreshed since), the weighted random strategy raises
    [ValueError] whatever the generator would yield: the range it draws from
    is empty. *)
Theorem weighted_random_empty_range (lb : LoadBalancer) (u : Z) :
  _get_healthy_server lb <> [] ->
  INT_MIN < total_weight lb <= 0 ->
  _weighted_random lb u = Raise ValueError.
Proof.
  intros Hne Htw. unfold _weighted_random.
  destruct (_get_healthy_server lb) as [|h hs]; [congruence|].
  rewrite wrap_int_id by (unfold INT_MIN, INT_MAX in *; lia).
  unfold randint. destruct (Z.ltb_spec (total_weight lb - 1) 0); [reflexivity | lia].
Qed.

Lemma weighted_random_empty_range_witness :
  _weighted_random heavy_pair 5 = Raise ValueError.
Proof.
  apply weighted_random_empty_range.
  - discriminate.
  - vm_compute. split; [reflexivity | discriminate].
Defined.

End DerivedState.

(** ** Smooth weighted round-robin: what a call conserves *)

Section WeightConservation.

Import ServerOps LoadBalancer Histories Samples.

Lemma current_total_bump (l : list Server) :
  current_total (map bump l) = current_total l + effective_total l.
Proof.
  induction l as [|s l IH]; cbn [map current_total effective_total]; [reflexivity|].
  rewrite IH. unfold bump. destruct (healthy s); cbn [set_current_weight current_weight]; lia.
Qed.

Lemma current_total_insert (l : list Server) : forall (b : nat) (s s' : Server),
  l !! b = Some s ->
  current_total (<[b := s']> l) = current_total l - current_weight s + current_weight s'.
Proof.
  induction l as [|x l IH]; intros [|b] s s' Hb; try discriminate; cbn [current_total].
  - injection Hb as ->. cbn. lia.
  - cbn in Hb. change (<[S b := s']> (x :: l)) with (x :: <[b := s']> l).
    cbn [current_total]. rewrite (IH b s s' Hb). lia.
Qed.

Lemma weighted_round_robin_current_total (lb : LoadBalancer) :
  total_fits (servers lb) ->
  current_total (servers (snd (_weighted_round_robin lb))) = current_total (servers lb).
Proof.
  intros Hfit.
  destruct (wrr_loop_whole (servers lb) Hfit) as (best & Hloop & Hbest).
  unfold _weighted_round_robin. rewrite Hloop.
  destruct best as [b|]; cbn [snd set_servers servers].
  - destruct Hbest as (_ & (s & Hs & Hh) & _).
    rewrite lookup_map, Hs. cbn [fmap option_fmap option_map].
    rewrite (current_total_insert _ b (bump s)) by (rewrite lookup_map, Hs; reflexivity).
    rewrite current_total_bump. cbn [set_current_weight current_weight]. lia.
  - rewrite current_total_bump.
    assert (Hz : forall l : list Server,
               (forall j s, (j < length l)%nat -> l !! j = Some s -> healthy s = false) ->
               effective_total l = 0).
    { induction l as [|x l IH]; intros H; cbn [effective_total]; [reflexivity|].
      rewrite (H 0%nat x) by (simpl; solve [lia | reflexivity]).
      rewrite IH; [reflexivity|]. intros j s Hj Hl. apply (H (S j) s); [simpl; lia | exact Hl]. }
    rewrite (Hz _ Hbest). lia.
Qed.

Lemma effective_total_frame (l : list Server) : forall l' : list Server,
  map frame l' = map frame l -> effective_total l' = effective_total l.
Proof.
  induction l as [|s l IH]; intros [|s' l'] H; try discriminate; [reflexivity|].
  cbn [map] in H. injection H as _ _ He _ Hh H.
  cbn [effective_total]. rewrite (IH l' H), He, Hh. reflexivity.
Qed.

Lemma total_fits_frame (l l' : list Server) :
  map frame l' = map frame l -> total_fits l -> total_fits l'.
Proof.
  intros H Hfit k. rewrite (effective_total_frame (take k l) (take k l')); [apply Hfit|].
  rewrite <- !firstn_map, H. reflexivity.
Qed.

Lemma weighted_round_robin_strategy (lb : LoadBalancer) :
  strategy (snd (_weighted_round_robin lb)) = strategy lb.
Proof.
  unfold _weighted_round_robin.
  destruct (wrr_loop _ _ _ _) as [[[[b|] t]|e] srvs]; reflexivity.
Qed.

(** X12. A call of the weighted round-robin that does not overflow leaves
    the sum of [current_weight] over all servers as it was: what the healthy
    servers gain together, the winner gives back. So does any number of
    consecutive selections of a balancer under that strategy: over servers
    that start at 0 the current weights still sum to 0 afterwards. *)
Theorem weighted_round_robin_conserves_weight (lb : LoadBalancer) :
  total_fits (servers lb) ->
  current_total (servers (snd (_weighted_round_robin lb))) = current_total (servers lb) /\
  (strategy lb = 1 ->
   forall us : list Z,
     current_total (servers (run (map OpNextServer us) lb)) = current_total (servers lb)).
Proof.
  intros Hfit. split; [apply weighted_round_robin_current_total, Hfit|].
  intros Hst us. revert lb Hfit Hst.
  induction us as [|u us IH]; intros lb Hfit Hst; [reflexivity|].
  cbn [map run fold_left step]. fold (run (map OpNextServer us) (snd (get_next_server lb u))).
  assert (E : get_next_server lb u = _weighted_round_robin lb).
  { unfold get_next_server. rewrite Hst. reflexivity. }
  rewrite E, IH.
  - apply weighted_round_robin_current_total, Hfit.
  - eapply total_fits_frame; [apply weighted_round_robin_frame | exact Hfit].
  - rewrite weighted_round_robin_strategy. exact Hst.
Qed.

Lemma weighted_round_robin_conserves_weight_witness :
  current_total (servers (snd (_weighted_round_robin fair_pair))) = 0 /\
  current_total (servers (run (map OpNextServer [0; 0; 0; 0; 0]) fair_pair)) = 0.
Proof.
  assert (Hfit : total_fits (servers fair_pair)).
  { intros k. destruct k as [|[|[|k]]]; reflexivity. }
  split.
  - apply (proj1 (weighted_round_robin_conserves_weight fair_pair Hfit)).
  - apply (proj2 (weighted_round_robin_conserves_weight fair_pair Hfit)). reflexivity.
Defined.

End WeightConservation.

(** ** CacheManager: before connect, statistics, and the scan of clear_all *)

Section StoreEdges.

Import CacheManager Samples.

Context {St Value : Type}.
Variable pickle_loads : list byte -> Exc Value.
Variable pickle_dumps : Value -> Exc (list byte).

(** X13. On a manager that was never connected ([redis_client] still
    [None], no cluster client) nothing reaches a backend: [get] answers a
    miss, [set] (of a value that pickles, for a time to live that fits a C
    [int]), [delete] and [clear_all] answer [False] and [get_stats] answers a
    zero count with the error, each after printing the [AttributeError] and
    without raising. A [set] with a time to live that does not fit a C [int]
    raises [OverflowError] at the call and prints nothing. *)
Theorem operations_before_connect
    (cm : @CacheManager St) (key : string) (v : Value) (b : list byte) (ttl : Z)
    (fuel : nat) (w : @World St) :
  redis_client cm = None -> redis_cluster cm = None ->
  get pickle_loads cm key w = Some (Ok None, logged "Cache get error" AttributeError w) /\
  (in_int ttl = true -> pickle_dumps v = Ok b ->
   set pickle_dumps cm key v ttl w
   = Some (Ok false, logged "Cache set error" AttributeError w)) /\
  (in_int ttl = false ->
   set pickle_dumps cm key v ttl w = Some (Raise OverflowError, w)) /\
  delete cm key w = Some (Ok false, logged "Cache delete error" AttributeError w) /\
  clear_all fuel cm w = Some (Ok false, logged "Cache clear error" AttributeError w) /\
  get_stats cm w
  = Some (Ok (StatsError 0 AttributeError), logged "Stats error" AttributeError w).
Proof.
  intros Hc Hcl. repeat split.
  - unfold get, get_body, with_client, io_try, io_bind. rewrite Hcl, Hc. reflexivity.
  - intros Hfit Hd. unfold set, as_int, set_body, with_client, io_try, io_bind, io_exc.
    rewrite Hfit, Hd, Hcl, Hc. reflexivity.
  - intros Hfit. unfold set, as_int, io_bind, io_exc. rewrite Hfit. reflexivity.
  - unfold delete, delete_body, with_client, io_try, io_bind. rewrite Hcl, Hc. reflexivity.
  - unfold clear_all, clear_all_body, with_client, io_try, io_bind. rewrite Hcl, Hc.
    reflexivity.
  - unfold get_stats, get_stats_body, with_client, io_try. rewrite Hcl, Hc. reflexivity.
Qed.

(** X14. [get_stats] never lets an exception derived from [Exception] out:
    when its try block raises one it answers a zero count with the error. On
    a connected single node it makes one scan, from cursor [b'0'] for 1000
    keys, and reports the number of keys of that page with the cluster flag
    off, whatever cursor the scan returns: keys beyond the first page are not
    counted. *)
Theorem get_stats_counts_one_page
    (cm : @CacheManager St) (c : @RedisClient St) (w w' : @World St) (st : St) (e : exn) :
  (forall r w1, get_stats cm w = Some (r, w1) -> contained r) /\
  (is_Exception e = true -> get_stats_body cm w = Some (Raise e, w') ->
   get_stats cm w = Some (Ok (StatsError 0 e), logged "Stats error" e w')) /\
  (redis_cluster cm = None -> redis_client cm = Some c ->
   forall cur keys,
     redis_scan c (CBytes ["0"%byte]) 1000 (backend w) = (Ok (cur, keys), st) ->
     get_stats cm w
     = Some (Ok (Stats (Z.of_nat (length keys)) false), after_call st w)).
Proof.
  split; [|split].
  - intros r w1. unfold get_stats, io_try.
    destruct (get_stats_body cm w) as [[[a|e0] w2]|]; [| |discriminate].
    + intros [= <- _]. exact I.
    + destruct (is_Exception e0) eqn:He; intros [= <- _]; [exact I | exact He].
  - intros He Hb. unfold get_stats, io_try. rewrite Hb, He. reflexivity.
  - intros Hcl Hc cur keys Hscan.
    unfold get_stats, get_stats_body, with_client, io_try, io_bind, io_call.
    rewrite Hcl, Hc, Hscan. reflexivity.
Qed.

End StoreEdges.

Section PagedScan.

Import CacheManager Samples.

Lemma scan_loop_paged_round (fuel : nat) (cur c : cursor) (keys : list rkey)
    (todo : list (cursor * list rkey)) (log : list (list rkey))
    (out : list (string * exn)) :
  cursor_truthy cur = true ->
  scan_loop (S fuel) paged cur {| backend := ((c, keys) :: todo, log); stdout := out |}
  = (if cursor_is_b0 c then io_ret tt else scan_loop fuel paged c)
      {| backend := (todo, match keys with [] => log | _ => log ++ [keys] end);
         stdout := out |}.
Proof.
  intros Hcur. rewrite scan_loop_S, Hcur. destruct keys; reflexivity.
Qed.

Lemma deleted_cons (c : cursor) (keys : list rkey) (pages : list (cursor * list rkey))
    (log : list (list rkey)) :
  match keys with [] => log | _ => log ++ [keys] end
    ++ List.filter nonempty (map snd pages)
  = log ++ List.filter nonempty (map snd ((c, keys) :: pages)).
Proof.
  destruct keys; cbn [map snd List.filter nonempty]; [reflexivity|].
  rewrite <- app_assoc. reflexivity.
Qed.

Lemma scan_loop_paged (pages : list (cursor * list rkey)) :
  forall (fuel : nat) (cur : cursor) (last : cursor * list rkey)
         (rest : list (cursor * list rkey)) (log : list (list rkey))
         (out : list (string * exn)),
  cursor_truthy cur = true ->
  forallb continuing (map fst pages) = true ->
  continuing (fst last) = false ->
  (length pages < fuel)%nat ->
  scan_loop fuel paged cur {| backend := (pages ++ last :: rest, log); stdout := out |}
  = Some (Ok tt,
          {| backend := (rest, log ++ List.filter nonempty (map snd (pages ++ [last])));
             stdout := out |}).
Proof.
  induction pages as [|[c keys] pages IH];
    intros fuel cur [cl kl] rest log out Hcur Hcont Hlast Hfuel;
    (destruct fuel as [|fuel]; [simpl in Hfuel; lia|]); cbn [app].
  - rewrite (scan_loop_paged_round fuel cur cl kl rest log out Hcur).
    rewrite <- (deleted_cons cl kl [] log). cbn [map List.filter]. rewrite app_nil_r.
    cbn [fst] in Hlast. unfold continuing in Hlast.
    destruct (cursor_is_b0 cl); [reflexivity|].
    rewrite andb_true_r in Hlast.
    destruct fuel; cbn [scan_loop]; rewrite Hlast; reflexivity.
  - rewrite (scan_loop_paged_round fuel cur c keys _ log out Hcur).
    cbn [map forallb fst] in Hcont. apply andb_true_iff in Hcont as [Hpage Hcont].
    unfold continuing in Hpage. apply andb_true_iff in Hpage as [Htruthy Hnot0].
    apply negb_true_iff in Hnot0. rewrite Hnot0.
    rewrite (IH fuel c (cl, kl) rest _ out Htruthy Hcont Hlast ltac:(simpl in Hfuel; lia)).
    rewrite (deleted_cons c keys (pages ++ [(cl, kl)]) log). reflexivity.
Qed.

(** X15. Against a single node that pages its scan, [clear_all] scans from
    [b'0'], deletes the keys of every page that has any, in order, and goes
    on to the next page until a page comes back with a cursor that is 0,
    empty or [b'0']; it then returns [True] without scanning further and
    without printing. A number of loop rounds above the number of pages
    before that one suffices. *)
Theorem clear_all_deletes_every_page
    (pages : list (cursor * list rkey)) (last : cursor * list rkey)
    (rest : list (cursor * list rkey)) (log : list (list rkey))
    (out : list (string * exn)) (ttl : Z) (fuel : nat) :
  forallb continuing (map fst pages) = true ->
  continuing (fst last) = false ->
  (length pages < fuel)%nat ->
  clear_all fuel (single_node paged ttl)
            {| backend := (pages ++ last :: rest, log); stdout := out |}
  = Some (Ok true,
          {| backend := (rest, log ++ List.filter nonempty (map snd (pages ++ [last])));
             stdout := out |}).
Proof.
  intros Hcont Hlast Hfuel.
  unfold clear_all, clear_all_body, with_client, io_try, io_bind.
  cbn [single_node redis_cluster redis_client].
  rewrite (scan_loop_paged pages fuel (CBytes ["0"%byte]) last rest log out
             eq_refl Hcont Hlast Hfuel).
  reflexivity.
Qed.

Lemma clear_all_deletes_every_page_witness :
  clear_all 3 (single_node paged 3600)
    {| backend := ([(CInt 17, [KBytes (PyStr.encode "cache:a")]); (CInt 4, []);
                    (CInt 0, [KBytes (PyStr.encode "cache:b")]);
                    (CInt 9, [KBytes (PyStr.encode "cache:c")])], []);
       stdout := [] |}
  = Some (Ok true,
          {| backend := ([(CInt 9, [KBytes (PyStr.encode "cache:c")])],
                         [[KBytes (PyStr.encode "cache:a")];
                          [KBytes (PyStr.encode "cache:b")]]);
             stdout := [] |}).
Proof.
  apply (clear_all_deletes_every_page
           [(CInt 17, [KBytes (PyStr.encode "cache:a")]); (CInt 4, [])]
           (CInt 0, [KBytes (PyStr.encode "cache:b")])
           [(CInt 9, [KBytes (PyStr.encode "cache:c")])] [] [] 3600 3).
  - reflexivity.
  - reflexivity.
  - simpl. lia.
Defined.

Lemma operations_before_connect_witness :
  let cm := {| redis_client := @None (@RedisClient unit); redis_cluster := None;
               default_ttl := 3600 |} in
  get toy_loads cm "k" quiet
  = Some (Ok None, logged "Cache get error" AttributeError quiet) /\
  set toy_dumps cm "k" "v"%string 60 quiet
  = Some (Ok false, logged "Cache set error" AttributeError quiet) /\
  set toy_dumps cm "k" "v"%string (2 ^ 31) quiet = Some (Raise OverflowError, quiet).
Proof.
  intros cm.
  destruct (operations_before_connect toy_loads toy_dumps cm "k" "v"%string
              (PyStr.encode "v") 60 0 quiet eq_refl eq_refl) as (Hget & Hset & _).
  destruct (operations_before_connect toy_loads toy_dumps cm "k" "v"%string
              (PyStr.encode "v") (2 ^ 31) 0 quiet eq_refl eq_refl) as (_ & _ & Hbig & _).
  split; [exact Hget|]. split; [exact (Hset eq_refl eq_refl) | exact (Hbig eq_refl)].
Defined.

Lemma get_stats_counts_one_page_witness :
  get_stats (single_node paged 3600)
    {| backend := ([(CInt 17, [KBytes (PyStr.encode "cache:a")]);
                    (CInt 0, [KBytes (PyStr.encode "cache:b")])], []);
       stdout := [] |}
  = Some (Ok (Stats 1 false),
          {| backend := ([(CInt 0, [KBytes (PyStr.encode "cache:b")])], []);
             stdout := [] |}).
Proof.
  set (w := {| backend := ([(CInt 17, [KBytes (PyStr.encode "cache:a")]);
                            (CInt 0, [KBytes (PyStr.encode "cache:b")])], []);
               stdout := [] |} : @World script).
  apply (proj2 (proj2 (get_stats_counts_one_page (single_node paged 3600) paged
                         w w ([(CInt 0, [KBytes (PyStr.encode "cache:b")])], [])
                         ConnectionError))
           eq_refl eq_refl (CInt 17) [KBytes (PyStr.encode "cache:a")]).
  reflexivity.
Defined.

End PagedScan.

(** ** The cache key: its filtered headers and its joints *)

Section CacheKeyShape.

Import CacheKey CacheKeySpec Samples.

Lemma dict_set_nonempty (d : pydict) (k v : string) : dict_set d k v <> [].
Proof.
  destruct d as [|[k' v'] d]; cbn [dict_set]; [discriminate|].
  destruct (String.eqb k' k); discriminate.
Qed.

Lemma fold_keep_header_nonempty (h : pydict) : forall d : pydict,
  d <> [] -> fold_left keep_header h d <> [].
Proof.
  induction h as [|kv h IH]; intros d Hd; cbn [fold_left]; [exact Hd|].
  apply IH. unfold keep_header. destruct (allowed _); [apply dict_set_nonempty | exact Hd].
Qed.

Lemma cache_headers_nil (h : pydict) :
  cache_headers h = [] <->
  List.Forall (fun kv => allowed (PyStr.lower (fst kv)) = false) h.
Proof.
  unfold cache_headers. induction h as [|kv h IH]; cbn [fold_left].
  - split; [constructor | reflexivity].
  - unfold keep_header at 2. destruct (allowed (PyStr.lower (fst kv))) eqn:Hk.
    + split.
      * intros H. exfalso. revert H. apply fold_keep_header_nonempty, dict_set_nonempty.
      * intros H. inversion H; congruence.
    + rewrite IH. split.
      * intros H. constructor; assumption.
      * intros H. inversion H; assumption.
Qed.

(** X16. The mapping the comprehension builds from the headers has distinct
    keys, all of them allow-listed, hence at most three items; looking up an
    allow-listed name in it gives the value of the last header inserted whose
    lower-cased key is that name, and any other name is absent; and it is
    empty exactly when no header key lower-cases to an allow-listed name. *)
Theorem cache_headers_shape (h : pydict) :
  List.NoDup (map fst (cache_headers h)) /\
  List.Forall (fun k => allowed k = true) (map fst (cache_headers h)) /\
  (length (cache_headers h) <= 3)%nat /\
  (forall a, dict_get (cache_headers h) a
             = if allowed a then header_value h a else None) /\
  (cache_headers h = [] <->
   List.Forall (fun kv => allowed (PyStr.lower (fst kv)) = false) h).
Proof.
  destruct (cache_headers_tidy h) as [Hnd Hall].
  split; [exact Hnd|]. split; [exact Hall|]. split; [|split].
  - rewrite <- (length_map fst).
    change 3%nat with (length allow_list).
    apply NoDup_incl_length; [exact Hnd|].
    intros k Hk. rewrite List.Forall_forall in Hall. specialize (Hall k Hk).
    destruct (allowed_cases k Hall) as [-> | [-> | ->]]; simpl; tauto.
  - intros a. destruct (allowed a) eqn:Ha.
    + unfold cache_headers. rewrite fold_keep_header_get by exact Ha.
      destruct (header_value h a); reflexivity.
    + apply dict_get_None. intros Hin.
      rewrite List.Forall_forall in Hall. rewrite (Hall a Hin) in Ha. discriminate.
  - apply cache_headers_nil.
Qed.

Lemma cache_headers_shape_witness :
  dict_get (cache_headers accept_twice) "accept" = Some "application/json"%string /\
  cache_headers [("X-Trace", "1"); ("Cookie", "a=b")]%string = [].
Proof.
  split.
  - apply (proj1 (proj2 (proj2 (proj2 (cache_headers_shape accept_twice))))).
  - apply (proj2 (proj2 (proj2 (proj2 (cache_headers_shape _))))).
    repeat constructor.
Defined.

(** X17. The parts of the digest input are joined by ":" without escaping,
    so requests that differ can share a key: moving a ":" between method and
    url does not change the key; a request without body whose url ends in
    ":" and the MD5 digest of some non-empty bytes has the key of the shorter
    url with those bytes as body; and a request without headers whose url
    ends in ":" and the JSON of the filtered headers has the key of the
    shorter url with those headers. *)
Theorem cache_key_joints_are_ambiguous (method url : string) :
  (forall (rest : string) (header : option pydict) (body : option (list byte)),
     generate_cache_key (String.append method (colon url)) rest header body
     = generate_cache_key method (String.append url (colon rest)) header body) /\
  (forall (b : byte) (bs : list byte),
     generate_cache_key method
       (String.append url (colon (Hashlib.MD5.hexdigest (b :: bs)))) None None
     = generate_cache_key method url None (Some (b :: bs))) /\
  (forall (h : pydict) (body : option (list byte)),
     cache_headers h <> [] ->
     generate_cache_key method
       (String.append url (colon (Json.dumps_sorted (cache_headers h)))) None body
     = generate_cache_key method url (Some h) body).
Proof.
  split; [|split].
  - intros rest header body. unfold generate_cache_key, _generate_cache_key, key_parts.
    rewrite append_assoc. reflexivity.
  - intros b bs. unfold generate_cache_key, _generate_cache_key, key_parts.
    cbv iota. do 2 f_equal. f_equal.
    unfold colon. rewrite append_assoc. reflexivity.
  - intros h body Hne. unfold generate_cache_key, _generate_cache_key, key_parts.
    destruct h as [|kv h]; [exfalso; apply Hne; reflexivity|].
    destruct (cache_headers (kv :: h)) as [|x ch] eqn:E; [congruence|].
    do 3 f_equal. unfold colon. rewrite append_assoc. reflexivity.
Qed.

Lemma cache_key_joints_are_ambiguous_witness :
  generate_cache_key "GET"
    (String.append "/p" (colon (Json.dumps_sorted (cache_headers browser_headers)))) None None
  = generate_cache_key "GET" "/p" (Some browser_headers) None.
Proof.
  apply (proj2 (proj2 (cache_key_joints_are_ambiguous "GET" "/p"))).
  discriminate.
Defined.

End CacheKeyShape.

(** ** LoadBalancer: the strategies that cannot fail *)

Section NeverRaises.

Import ServerOps LoadBalancer Histories Samples.

(** X18. Under round-robin, random and least connections a selection never
    raises: with at least one healthy server [get_next_server] returns a
    server, whatever the cursor, the derived state and the generator's
    output are. *)
Theorem plain_strategies_never_raise (lb : LoadBalancer) (u : Z) :
  strategy lb = 0 \/ strategy lb = 2 \/ strategy lb = 4 ->
  _get_healthy_server lb <> [] ->
  exists p, fst (get_next_server lb u) = Ok (Some p).
Proof.
  intros Hst Hne. unfold get_next_server.
  destruct Hst as [-> | [-> | ->]]; cbn [Z.eqb Pos.eqb].
  - destruct (round_robin_some lb Hne) as [_ Hcall]. rewrite Hcall. eexists. reflexivity.
  - destruct (random_member_exists lb u Hne) as (p & Hp). exists p. exact Hp.
  - cbn [fst]. pose proof (least_connections_busy lb) as Hb.
    destruct (_least_connections lb) as [b|]; [exists b; reflexivity|].
    exfalso. cbn [least_busy] in Hb.
    destruct (_get_healthy_server lb) as [|p hs] eqn:E; [congruence|].
    assert (Hin : p ∈ _get_healthy_server lb) by (rewrite E; apply list_elem_of_here).
    apply healthy_member in Hin as (s & Hs & Hh).
    rewrite (Hb p s (lookup_lt_Some _ _ _ Hs) Hs) in Hh. discriminate.
Qed.

Lemma plain_strategies_never_raise_witness :
  exists p, fst (get_next_server busy_three 0) = Ok (Some p).
Proof.
  apply plain_strategies_never_raise.
  - right. right. reflexivity.
  - discriminate.
Defined.

Lemma least_connections_selection_witness :
  connections_at (servers busy_three) 1
  < active_connections (increment_connections (increment_connections (ServerOps.__init__ "a" 1))).
Proof.
  pose proof (least_connections_selection busy_three) as H.
  change (_least_connections busy_three) with (Some 1%nat) in H.
  destruct H as [_ Hmin].
  apply (Hmin 0%nat); [reflexivity | reflexivity | lia].
Defined.

Lemma healthy_list_is_the_healthy_servers_witness :
  healthy_at (servers rr_gap) 2 /\ (0 < 2)%nat.
Proof.
  destruct (healthy_list_is_the_healthy_servers rr_gap) as [Hmem Hinc].
  split.
  - apply Hmem. apply list_elem_of_further, list_elem_of_here.
  - apply (Hinc 0%nat 1%nat); [lia | reflexivity | reflexivity].
Defined.

End NeverRaises.
